(** * scikit-nano: geometric primitives and the SWNT generator

    A shallow embedding of

      - [sknano/core/_npcoremath.py]   ([Point], [Vector]),
      - [sknano/core/math/_point.py]   ([Point], the same constructor),
      - [sknano/generators/_swnt_generator.py] and
        [sknano/generators/_base.py]   (unit cell, replication, export).

    Numbers.  NumPy's float64 components are idealised as exact rationals
    [Q]: rounding is not modelled, and two components are compared with
    [Qeq] ([==]) wherever arithmetic has been performed on them.  The
    [dtype] argument of the constructors is left at its default: a point
    is then a float64 array, and so is a vector, unless it is built from
    integers, which makes it an int64 array whose components are 64-bit
    integers and in which a number is truncated when it is stored.

    Objects.  [Point] objects bound to a [Vector] are shared, mutable
    Python objects; they live in a store ([heap]) and a vector refers to
    them by address.  Exceptions are values of [exn] carried by [result]. *)

From Stdlib Require Import QArith Qabs Qround Lqa ZArith Lia.
From stdpp Require Import base option list strings gmap.

Local Open Scope Q_scope.

(** ** Exceptions *)

Inductive exn : Type :=
| TypeError
| ValueError
| AttributeError
| IndexError.

Inductive result (A : Type) : Type :=
| Ok (a : A)
| Raise (e : exn).
Arguments Ok {A} a.
Arguments Raise {A} e.

Definition rbind {A B : Type} (r : result A) (k : A -> result B) : result B :=
  match r with
  | Ok a => k a
  | Raise e => Raise e
  end.

Notation "'do' x <- r ; k" := (rbind r (fun x => k))
  (at level 10, x pattern, r at level 100, k at level 200).

(** ** The NumPy operations the source uses *)

Module np.

(** [np.zeros(n)] *)
Definition zeros (n : Z) : result (list Q) :=
  if (n <? 0)%Z then Raise ValueError else Ok (repeat 0 (Z.to_nat n)).

(** [np.asarray(p, dtype=float)] on a sequence whose items are numbers
    or [None]: [float(None)] is a [TypeError]. *)
Fixpoint asarray (items : list (option Q)) : result (list Q) :=
  match items with
  | [] => Ok []
  | None :: _ => Raise TypeError
  | Some q :: rest => do a <- asarray rest; Ok (q :: a)
  end.

(** One-dimensional broadcasting of a binary ufunc: equal shapes combine
    pointwise, a shape [(1,)] operand is stretched, anything else is a
    [ValueError]. *)
Definition broadcast (f : Q -> Q -> Q) (a b : list Q) : result (list Q) :=
  if (length a =? length b)%nat then Ok (zip_with f a b)
  else match a, b with
       | [a0], _ => Ok (map (f a0) b)
       | _, [b0] => Ok (map (fun x => f x b0) a)
       | _, _ => Raise ValueError
       end.

Definition add : list Q -> list Q -> result (list Q) := broadcast Qplus.
Definition sub : list Q -> list Q -> result (list Q) := broadcast Qminus.

(** [a[:] = value]: the shape of [a] is kept, [value] is broadcast. *)
Definition assign_all (a value : list Q) : result (list Q) :=
  if (length value =? length a)%nat then Ok value
  else match value with
       | [q] => Ok (repeat q (length a))
       | _ => Raise ValueError
       end.

(** [a[i] = value] with an integer index: negative indices count from
    the end, anything out of range is an [IndexError]. *)
Definition setitem (a : list Q) (i : Z) (value : Q) : result (list Q) :=
  let n := Z.of_nat (length a) in
  let j := if (i <? 0)%Z then (i + n)%Z else i in
  if ((0 <=? j) && (j <? n))%Z then Ok (<[Z.to_nat j := value]> a)
  else Raise IndexError.

(** [a[np.where(np.abs(a) <= epsilon)] = 0.0] on a [float64] array *)
Definition snap (epsilon c : Q) : Q :=
  if Qle_bool (Qabs c) epsilon then 0 else c.

Definition rezero (epsilon : Q) (a : list Q) : list Q :=
  map (snap epsilon) a.

(** *** Element types *)

(** The element types an array takes when [dtype] is left at its
    default: [float64], and [int64] for an array of integers (the
    default integer type of a 64-bit platform). *)
Inductive dtype : Type := Float64 | Int64.

Definition int64_min : Z := (- 2 ^ 63)%Z.
Definition int64_max : Z := (2 ^ 63 - 1)%Z.

Definition in_int64 (z : Z) : bool :=
  ((int64_min <=? z) && (z <=? int64_max))%Z.

(** A 64-bit integer. *)
Record int64 : Type := mk_int64 {
  int64_val : Z;
  int64_range : in_int64 int64_val = true
}.

(** The conversion of a float to an integer truncates towards zero. *)
Definition trunc (q : Q) : Z :=
  if Qle_bool 0 q then Qfloor q else Qceiling q.

(** What an array of element type [dt] holds once [q] has been stored
    in it.  An [int64] array holds the truncation of [q]; when that
    does not fit in 64 bits the conversion is undefined in C, and
    [overflow] is what the platform makes of it. *)
Definition cast (overflow : Q -> int64) (dt : dtype) (q : Q) : Q :=
  match dt with
  | Float64 => q
  | Int64 =>
      let z := trunc q in
      inject_Z (if in_int64 z then z else int64_val (overflow q))
  end.

(** [np.abs] on a component of an array of element type [dt]: 64-bit
    negation wraps around, so that the absolute value of the least
    integer is that integer. *)
Definition abs (dt : dtype) (c : Q) : Q :=
  match dt with
  | Float64 => Qabs c
  | Int64 => if Qeq_bool c (inject_Z int64_min) then c else Qabs c
  end.

(** [a[np.where(np.abs(a) <= epsilon)] = 0.0] on an array of element
    type [dt]; on a [float64] array these are [snap] and [rezero]. *)
Definition snap_as (dt : dtype) (epsilon c : Q) : Q :=
  if Qle_bool (abs dt c) epsilon then 0 else c.

Definition rezero_as (dt : dtype) (epsilon : Q) (a : list Q) : list Q :=
  map (snap_as dt epsilon) a.

(** [np.cos], [np.sin] and [np.pi]: rational stand-ins, supplied by an
    instance. *)
Class Trig : Type := {
  cos : Q -> Q;
  sin : Q -> Q;
  pi : Q
}.

(** [int(np.ceil(q))] *)
Definition ceil (q : Q) : Z := Qceiling q.

End np.

(** [int(q)]: truncation towards zero. *)
Definition py_int (q : Q) : Z :=
  if Qle_bool 0 q then Qfloor q else Qceiling q.

(** ** Point *)

Record Point : Type := mkPoint {
  coords : list Q;               (* the array data *)
  nd : Z;                        (* the [nd] attribute *)
  pdict : gmap string Q          (* other instance attributes *)
}.

(** ** Vector: the element type, the array data, the [nd] attribute,
    the addresses of the bound points [_p] and [_p0] ([None] when
    unbound), other attributes.  A component [z] of an [int64] vector is
    held as [inject_Z z].  [vview] records that the data buffer is not
    the vector's own but that of the array or vector it was made from
    ([copy=False]). *)

Abbreviation loc := nat (only parsing).
Abbreviation heap := (list Point) (only parsing).

Record Vector : Type := mkVectorOf {
  vdtype : np.dtype;
  vview : bool;
  vdata : list Q;
  vnd : Q;
  _p : option loc;
  _p0 : option loc;
  vdict : gmap string Q
}.

(** A [float64] vector with a data buffer of its own. *)
Abbreviation mkVector := (mkVectorOf np.Float64 false).

(** ** What the source leaves to NumPy and to the platform *)

(** [float_to_int64]: the integer a float is converted to when its
    truncation does not fit in 64 bits.  [reserved_setattr]: what
    assigning a number does for a name with a meaning of its own, that
    is an attribute [ndarray] or [object] defines for every array
    ([shape], [dtype], [flat], [real], [T], [__class__], ...), or [_p]
    or [_p0], which hold points; [None] for any other name. *)
Class Runtime : Type := {
  float_to_int64 : Q -> np.int64;
  reserved_setattr : string -> option (Vector -> Q -> result Vector)
}.

(** ** Constructor arguments *)

Inductive seq_kind : Type := TupleK | ListK | ArrayK.

#[global] Instance seq_kind_eq_dec : EqDecision seq_kind.
Proof. solve_decision. Defined.

(** [PySeq]: a tuple, a list or an array whose items are floats, with
    integers among them or not, or [None].  [PyInts]: one whose items
    are all integers, of 64 bits. *)
Inductive pyobj : Type :=
| PyNone
| PyNum (q : Q)                                   (* int, float, bool *)
| PyStr (s : string)                              (* any other non-sequence *)
| PySeq (k : seq_kind) (items : list (option Q))  (* tuple, list, ndarray *)
| PyPoint (pt : Point)
| PyVector (vec : Vector)
| PyInts (k : seq_kind) (items : list np.int64).  (* tuple, list, ndarray *)

(** The items of a sequence of integers, as numbers. *)
Definition int_items (items : list np.int64) : list (option Q) :=
  map (fun i => Some (inject_Z (np.int64_val i))) items.

(** The element type [np.asarray] gives a sequence of integers: an
    empty tuple or list makes a [float64] array. *)
Definition ints_dtype (k : seq_kind) (items : list np.int64) : np.dtype :=
  match k, items with
  | (TupleK | ListK), [] => np.Float64
  | _, _ => np.Int64
  end.

(** [isinstance(v, np.ndarray)] for a sequence of kind [k] *)
Definition is_array (k : seq_kind) : bool :=
  match k with ArrayK => true | _ => false end.

(** The components a sequence argument of the constructor stands for. *)
Definition sequence_items (v : pyobj) : option (list (option Q)) :=
  match v with
  | PySeq _ items => Some items
  | PyInts _ items => Some (int_items items)
  | PyPoint pt => Some (map Some (coords pt))
  | _ => None
  end.

(** [isinstance(nd, numbers.Number)] *)
Definition is_number (o : pyobj) : bool :=
  match o with PyNum _ => true | _ => false end.

(** [isinstance(p, (tuple, list, np.ndarray))]; [Point] and [Vector]
    subclass [np.ndarray]. *)
Definition is_sequence (o : pyobj) : bool :=
  match o with
  | PySeq _ _ | PyPoint _ | PyVector _ | PyInts _ _ => true
  | _ => false
  end.

Definition alias_index (name : string) : option nat :=
  if String.eqb name "x" then Some 0%nat
  else if String.eqb name "y" then Some 1%nat
  else if String.eqb name "z" then Some 2%nat
  else None.

(** [name in ('x', 'y')] for [nd == 2], [name in ('x', 'y', 'z')] for
    [nd == 3]: the component a named alias stands for, if any. *)
Definition alias_slot (two three : bool) (name : string) : option nat :=
  match alias_index name with
  | Some i =>
      if two && (i <? 2)%nat then Some i
      else if three then Some i
      else None
  | None => None
  end.

Module PointM.

(** [Point.__setattr__] *)
Definition setattr (pt : Point) (name : string) (value : Q) : result Point :=
  match alias_slot (nd pt =? 2)%Z (nd pt =? 3)%Z name with
  | Some i =>
      do c <- np.setitem (coords pt) (Z.of_nat i) value;
      Ok (mkPoint c (nd pt) (pdict pt))
  | None => Ok (mkPoint (coords pt) (nd pt) (<[name := value]> (pdict pt)))
  end.

(** Attribute read: the instance dictionary first, then
    [Point.__getattr__], which looks at [len(self)]. *)
Definition getattr (pt : Point) (name : string) : result Q :=
  match pdict pt !! name with
  | Some q => Ok q
  | None =>
      let n := length (coords pt) in
      match alias_slot (n =? 2)%nat (n =? 3)%nat name with
      | Some i =>
          match coords pt !! i with
          | Some q => Ok q
          | None => Raise IndexError
          end
      | None => Raise AttributeError
      end
  end.

(** [pt.x, pt.y = pt] and [pt.x, pt.y, pt.z = pt]: the right-hand side
    is unpacked first (a length mismatch is a [ValueError]), then the
    targets are assigned from left to right. *)
Fixpoint assign_names (pt : Point) (names : list string) (values : list Q)
  : result Point :=
  match names, values with
  | [], [] => Ok pt
  | name :: names', value :: values' =>
      do pt' <- setattr pt name value; assign_names pt' names' values'
  | _, _ => Raise ValueError
  end.

Definition init_aliases (pt : Point) : result Point :=
  if (nd pt =? 2)%Z then assign_names pt ["x"; "y"] (coords pt)
  else if (nd pt =? 3)%Z then assign_names pt ["x"; "y"; "z"] (coords pt)
  else Ok pt.

(** The tail of [__new__], and [__array_finalize__]: a fresh object over
    the data with [nd] set and the aliases initialised. *)
Definition finish (data : list Q) (n : Z) : result Point :=
  init_aliases (mkPoint data n ∅).

(** The loop [for i, coord in enumerate(p[:]): if coord is None:
    p[i] = 0.0].  Item assignment on a tuple is a [TypeError]. *)
Fixpoint fill_missing (k : seq_kind) (todo : list (option Q)) (i : nat)
    (p : list (option Q)) : result (list (option Q)) :=
  match todo with
  | [] => Ok p
  | Some _ :: todo' => fill_missing k todo' (S i) p
  | None :: todo' =>
      match k with
      | TupleK => Raise TypeError
      | ListK | ArrayK => fill_missing k todo' (S i) (<[i := Some 0]> p)
      end
  end.

(** The sequence branch of [__new__] (lines 53-62). *)
Definition of_sequence (k : seq_kind) (items : list (option Q))
  : result Point :=
  do p <- match fill_missing k items 0 items with
          | Raise TypeError => np.zeros (Z.of_nat (length items))
          | Raise e => Raise e
          | Ok p' => np.asarray p'
          end;
  finish p (Z.of_nat (length p)).

(** [Point.__new__(cls, p, nd, dtype=None, copy)] *)
Definition new (p nd : pyobj) (copy : bool) : result Point :=
  match p with
  | PyPoint pt =>
      (* [p.view(cls)], copied or not: same data, a fresh object *)
      finish (coords pt) (Z.of_nat (length (coords pt)))
  | PySeq k items => of_sequence k items
  | PyInts k items => of_sequence k (int_items items)
  | PyVector vec => of_sequence ArrayK (map Some (vdata vec))
  | PyNone | PyNum _ | PyStr _ =>
      let n := match nd with
               | PyNum q => py_int q
               | _ => 3%Z
               end in
      do p' <- np.zeros n;
      finish p' n
  end.


End PointM.

(** ** Vector *)

Module VectorM.

(** A fresh object is placed at the end of the store. *)
Definition alloc (h : heap) (pt : Point) : heap * loc :=
  (h ++ [pt], length h).

(** The object an attribute holding an address evaluates to; [None]
    for an unbound attribute. *)
Definition deref (h : heap) (o : option loc) : option Point :=
  match o with
  | Some l => h !! l
  | None => None
  end.

Definition with_data (vec : Vector) (d : list Q) : Vector :=
  mkVectorOf (vdtype vec) (vview vec) d (vnd vec) (_p vec) (_p0 vec)
             (vdict vec).

Definition with_coords (pt : Point) (c : list Q) : Point :=
  mkPoint c (nd pt) (pdict pt).

(** [try: self._p.<name> = self._p0.<name> + value
     except AttributeError: pass] *)
Definition sync_terminal (h : heap) (vec : Vector) (name : string)
    (value : Q) : result heap :=
  match deref h (_p0 vec) with
  | None => Ok h
  | Some pt0 =>
      match PointM.getattr pt0 name with
      | Raise AttributeError => Ok h
      | Raise e => Raise e
      | Ok x0 =>
          match _p vec, deref h (_p vec) with
          | Some l, Some pt =>
              match PointM.setattr pt name (x0 + value) with
              | Raise AttributeError => Ok h
              | Raise e => Raise e
              | Ok pt' => Ok (<[l := pt']> h)
              end
          | _, _ => Ok h
          end
      end
  end.

(** The result of a ufunc on points: [__array_finalize__] takes [nd]
    from the operand the result derives from; the data are the result
    of the operation. *)
Definition ufunc_result (template : Point) (data : list Q) : Point :=
  mkPoint data (Z.of_nat (length (coords template))) ∅.

(** [Point(nd=nd, dtype=dtype)] when the argument is [None],
    [Point(arg, nd=nd, dtype=dtype)] otherwise. *)
Definition point_arg (arg : pyobj) (n : Q) : result Point :=
  match arg with
  | PyNone => PointM.new PyNone (PyNum n) true
  | _ => PointM.new arg (PyNum n) true
  end.

(** [Vector.rezero_components] *)
Definition rezero_components (vec : Vector) (epsilon : Q) : Vector :=
  with_data vec (np.rezero_as (vdtype vec) epsilon (vdata vec)).

(** The mutations of a bound vector.  A value is a float, or an integer
    that fits in 64 bits. *)
Inductive mutation : Type :=
| SetAttr (name : string) (value : Q)    (* [vec.x = value] *)
| SetItem (i : Z) (value : Q)            (* [vec[i] = value] *)
| SetP (value : list Q)                  (* [vec.p = value] *)
| SetP0 (value : list Q).                (* [vec.p0 = value] *)

Section Operations.

Context `{RT : Runtime}.

(** What the data of [vec] hold once [q] has been stored in them: the
    number itself in a [float64] vector, its truncation in an [int64]
    one. *)
Definition store (vec : Vector) (q : Q) : Q :=
  np.cast float_to_int64 (vdtype vec) q.

(** Writing a component by index: [Vector] does not override
    [__setitem__], so this is [ndarray]'s and touches the vector's own
    data only. *)
Definition setitem (vec : Vector) (i : Z) (value : Q) : result Vector :=
  do d <- np.setitem (vdata vec) i (store vec value);
  Ok (with_data vec d).

(** [self[:] = d] *)
Definition assign_data (vec : Vector) (d : list Q) : result Vector :=
  do v' <- np.assign_all (vdata vec) (map (store vec) d);
  Ok (with_data vec v').

(** The setter of property [p] (lines 314-318):
    [self._p[:] = value; self[:] = self._p - self._p0] *)
Definition set_p (h : heap) (vec : Vector) (value : list Q)
  : result (heap * Vector) :=
  match _p vec, deref h (_p vec) with
  | Some l, Some pt =>
      do c <- np.assign_all (coords pt) value;
      let h' := <[l := with_coords pt c]> h in
      match deref h' (_p vec), deref h' (_p0 vec) with
      | Some pt1, Some pt0 =>
          do d <- np.sub (coords pt1) (coords pt0);
          do vec' <- assign_data vec d;
          Ok (h', vec')
      | _, _ => Raise TypeError
      end
  | _, _ => Raise TypeError
  end.

(** The setter of property [p0] (lines 325-329):
    [self._p0[:] = value; self[:] = self._p - self._p0] *)
Definition set_p0 (h : heap) (vec : Vector) (value : list Q)
  : result (heap * Vector) :=
  match _p0 vec, deref h (_p0 vec) with
  | Some l0, Some pt0 =>
      do c <- np.assign_all (coords pt0) value;
      let h' := <[l0 := with_coords pt0 c]> h in
      match deref h' (_p vec), deref h' (_p0 vec) with
      | Some pt, Some pt0' =>
          do d <- np.sub (coords pt) (coords pt0');
          do vec' <- assign_data vec d;
          Ok (h', vec')
      | _, _ => Raise TypeError
      end
  | _, _ => Raise TypeError
  end.

(** [super(Vector, self).__setattr__(name, value)], the last branch of
    [__setattr__]: [p] and [p0] are properties, whose setters run (a
    number is broadcast like a sequence of one item); [nd] is the
    attribute the aliases are decided on; a name with a meaning of its
    own is left to the [Runtime]; any other name becomes an instance
    attribute. *)
Definition object_setattr (h : heap) (vec : Vector) (name : string)
    (value : Q) : result (heap * Vector) :=
  if String.eqb name "p" then set_p h vec [value]
  else if String.eqb name "p0" then set_p0 h vec [value]
  else if String.eqb name "nd" then
    Ok (h, mkVectorOf (vdtype vec) (vview vec) (vdata vec) value
                      (_p vec) (_p0 vec) (vdict vec))
  else
    match reserved_setattr name with
    | Some assign => do vec' <- assign vec value; Ok (h, vec')
    | None =>
        Ok (h, mkVectorOf (vdtype vec) (vview vec) (vdata vec) (vnd vec)
                          (_p vec) (_p0 vec) (<[name := value]> (vdict vec)))
    end.

(** [Vector.__setattr__] (lines 271-307) *)
Definition setattr (h : heap) (vec : Vector) (name : string) (value : Q)
  : result (heap * Vector) :=
  match alias_slot (Qeq_bool (vnd vec) 2) (Qeq_bool (vnd vec) 3) name with
  | Some i =>
      do d <- np.setitem (vdata vec) (Z.of_nat i) (store vec value);
      do h' <- sync_terminal h vec name value;
      Ok (h', with_data vec d)
  | None => object_setattr h vec name value
  end.

(** [vec.x, vec.y = vec] and [vec.x, vec.y, vec.z = vec] *)
Fixpoint assign_names (h : heap) (vec : Vector) (names : list string)
    (values : list Q) : result (heap * Vector) :=
  match names, values with
  | [], [] => Ok (h, vec)
  | name :: names', value :: values' =>
      do (h', vec') <- setattr h vec name value;
      assign_names h' vec' names' values'
  | _, _ => Raise ValueError
  end.

Definition init_aliases (h : heap) (vec : Vector) : result (heap * Vector) :=
  if Qeq_bool (vnd vec) 2 then assign_names h vec ["x"; "y"] (vdata vec)
  else if Qeq_bool (vnd vec) 3 then
    assign_names h vec ["x"; "y"; "z"] (vdata vec)
  else Ok (h, vec).

(** The sequence branch (lines 192-200) followed by the tail of
    [__new__] (lines 216-228), for components of element type [dt];
    [view]: the buffer of the array passed in is used as it is. *)
Definition of_sequence (h : heap) (dt : np.dtype) (view : bool)
    (items : list (option Q)) (p0 : pyobj) : result (heap * Vector) :=
  let n := inject_Z (Z.of_nat (length items)) in
  do pt0 <- point_arg p0 n;
  do v <- np.asarray items;
  do pc <- np.add (coords pt0) v;
  let '(h1, l0) := alloc h pt0 in
  let '(h2, l) := alloc h1 (ufunc_result pt0 pc) in
  init_aliases h2 (mkVectorOf dt view v n (Some l) (Some l0) ∅).

(** [Vector.__new__(cls, v, nd, p, p0, dtype=None, copy)] *)
Definition new (h : heap) (v nd p p0 : pyobj) (copy : bool)
  : result (heap * Vector) :=
  match v with
  | PyVector vec =>
      (* [v.view(cls)], returned as it is or copied: the element type
         is that of [v], and [__array_finalize__] gives the new object
         the very points [v] is bound to *)
      Ok (h, mkVectorOf (vdtype vec) (negb copy) (vdata vec)
                        (inject_Z (Z.of_nat (length (vdata vec))))
                        (_p vec) (_p0 vec) ∅)
  | PySeq k items =>
      of_sequence h np.Float64 (negb copy && is_array k) items p0
  | PyInts k items =>
      of_sequence h (ints_dtype k items) (negb copy && is_array k)
                  (int_items items) p0
  | PyPoint pt => of_sequence h np.Float64 (negb copy) (map Some (coords pt)) p0
  | PyNone | PyNum _ | PyStr _ =>
      let n := match nd with
               | PyNum q => q
               | _ => 3
               end in
      do pt <- point_arg p n;
      do pt0 <- point_arg p0 n;
      do d <- np.sub (coords pt) (coords pt0);
      let '(h1, l) := alloc h pt in
      let '(h2, l0) := alloc h1 pt0 in
      init_aliases h2 (mkVector d n (Some l) (Some l0) ∅)
  end.

Definition mutate (h : heap) (vec : Vector) (m : mutation)
  : result (heap * Vector) :=
  match m with
  | SetAttr name value => setattr h vec name value
  | SetItem i value => do vec' <- setitem vec i value; Ok (h, vec')
  | SetP value => set_p h vec value
  | SetP0 value => set_p0 h vec value
  end.

End Operations.

(** [v == p - p0], component by component, as a test. *)
Definition eq_components (a b : list Q) : bool :=
  (length a =? length b)%nat && forallb (fun ab => Qeq_bool ab.1 ab.2) (zip a b).

Definition invariantb (h : heap) (vec : Vector) : bool :=
  match deref h (_p vec), deref h (_p0 vec) with
  | Some pt, Some pt0 =>
      match np.sub (coords pt) (coords pt0) with
      | Ok d => eq_components (vdata vec) d
      | Raise _ => false
      end
  | _, _ => false
  end.

End VectorM.

(** ** What the constructor makes of a sequence *)

Definition has_none (items : list (option Q)) : bool :=
  existsb (fun o => match o with None => true | Some _ => false end) items.

(** A missing item replaced by zero. *)
Definition default_zero (items : list (option Q)) : list Q :=
  map (default 0) items.

(** What the sequence branch of the constructor computes. *)
Definition sequence_coords (k : seq_kind) (items : list (option Q)) : list Q :=
  match k with
  | TupleK =>
      if has_none items then repeat 0 (length items) else default_zero items
  | ListK | ArrayK => default_zero items
  end.

(** ** Well-formed bound vectors *)

(** A point as the constructor builds it: [nd] is the length of the data
    and no component alias is shadowed by an instance attribute. *)
Definition wf_point (pt : Point) : Prop :=
  nd pt = Z.of_nat (length (coords pt)) /\ pdict pt = ∅.

(** [vec] is bound, in store [h], to the terminal point [pt] and the
    origin point [pt0]: two distinct objects of the vector's shape. *)
Definition bound (h : heap) (vec : Vector) (pt pt0 : Point) : Prop :=
  exists l l0,
    _p vec = Some l /\ _p0 vec = Some l0 /\ l <> l0
    /\ h !! l = Some pt /\ h !! l0 = Some pt0
    /\ wf_point pt /\ wf_point pt0
    /\ length (coords pt) = length (vdata vec)
    /\ length (coords pt0) = length (vdata vec)
    /\ (vnd vec == 2 \/ vnd vec == 3 ->
        vnd vec == inject_Z (Z.of_nat (length (vdata vec)))).

(** The invariant [v = p - p0]. *)
Definition displacement (vec : Vector) (pt pt0 : Point) : Prop :=
  Forall2 Qeq (vdata vec) (zip_with Qminus (coords pt) (coords pt0)).

(** The component a named alias of [vec] stands for. *)
Definition vector_slot (vec : Vector) (name : string) : option nat :=
  alias_slot (Qeq_bool (vnd vec) 2) (Qeq_bool (vnd vec) 3) name.

(** "After this mutation [v = p - p0] holds again." *)
Definition maintains_displacement `{Runtime} (m : VectorM.mutation) : Prop :=
  forall h vec pt pt0 h' vec',
    bound h vec pt pt0 ->
    displacement vec pt pt0 ->
    VectorM.mutate h vec m = Ok (h', vec') ->
    exists pt' pt0', bound h' vec' pt' pt0' /\ displacement vec' pt' pt0'.

(** The vector [Vector([1.0, 2.0, 3.0])] in the empty store. *)
Definition sample_heap : heap :=
  [mkPoint [0; 0; 0] 3 ∅; mkPoint [1; 2; 3] 3 ∅].
Definition sample_vector : Vector :=
  mkVector [1; 2; 3] 3 (Some 1%nat) (Some 0%nat) ∅.

(** [a'] is [a] with exactly the components of absolute value at most
    [epsilon] set to zero. *)
Definition rezeroed (epsilon : Q) (a a' : list Q) : Prop :=
  length a' = length a
  /\ forall i c, a !! i = Some c ->
       exists c', a' !! i = Some c'
                  /\ (Qabs c <= epsilon -> c' = 0)
                  /\ (~ Qabs c <= epsilon -> c' = c).

(** A run of mutations, one after the other. *)
Fixpoint mutate_all `{Runtime} (h : heap) (vec : Vector)
    (ms : list VectorM.mutation) : result (heap * Vector) :=
  match ms with
  | [] => Ok (h, vec)
  | m :: ms' =>
      do (h', vec') <- VectorM.mutate h vec m;
      mutate_all h' vec' ms'
  end.

(** A write through an alias that stands for a component of [vec], or
    a replacement of [p] or of [p0]. *)
Definition tracked_write (vec : Vector) (m : VectorM.mutation) : bool :=
  match m with
  | VectorM.SetAttr name _ =>
      match vector_slot vec name with Some _ => true | None => false end
  | VectorM.SetItem _ _ => false
  | VectorM.SetP _ | VectorM.SetP0 _ => true
  end.

(** [a'] is [a] with exactly those components set to zero that an
    [int64] array finds at most [epsilon] in absolute value: the
    components of absolute value at most [epsilon], and the least
    64-bit integer, whose absolute value wraps around to itself. *)
Definition rezeroed_int64 (epsilon : Q) (a a' : list Q) : Prop :=
  length a' = length a
  /\ forall i c, a !! i = Some c ->
       let wraps := c == inject_Z np.int64_min
                    /\ inject_Z np.int64_min <= epsilon in
       exists c', a' !! i = Some c'
                  /\ (Qabs c <= epsilon \/ wraps -> c' = 0)
                  /\ (~ (Qabs c <= epsilon \/ wraps) -> c' = c).

(** ** Atoms and regions *)

(** Modelled from the spec: the [Atom] class ([GeneratorAtom] of
    [sknano/generators/_base.py]) is not among the sources.  "Atom: an
    identity-bearing particle with an element label and a Point
    position"; "Each atom's coordinates are rezeroed (component values
    below the point-tolerance snapped to zero) immediately after
    construction", the tolerance being 1e-10. *)
Record Atom : Type := mkAtom {
  element : string;
  x : Q;
  y : Q;
  z : Q
}.

Definition symbol (a : Atom) : string := element a.

Definition point_tolerance : Q := 1 # 10000000000.

Definition Atom_rezero (a : Atom) : Atom :=
  mkAtom (element a)
         (np.snap point_tolerance (x a))
         (np.snap point_tolerance (y a))
         (np.snap point_tolerance (z a)).

(** [uc_atom.r + dr] for [dr = Vector([dx, dy, dz])] *)
Definition Atom_translate (a : Atom) (dx dy dz : Q) : Atom :=
  mkAtom (symbol a) (x a + dx) (y a + dy) (z a + dz).

(** A corner component of a [Cuboid]: a number or [±np.inf]. *)
Inductive ext : Type := NegInf | Finite (q : Q) | PosInf.

Record Cuboid : Type := mkCuboid {
  pmin : list ext;
  pmax : list ext
}.

(** The calls the export pipeline makes on its collaborators, in the
    order they are made. *)
Inductive event : Type :=
| ClipBounds (region : Cuboid) (center_before_clipping : bool)
| CenterCM
| Rotate (R_matrix : list (list Q))
| Write (fname : string) (outpath : option string) (atoms : list Atom)
        (structure_format : string).

(** What the generator uses and the sources do not contain: the chiral
    angle ([sknano.structures]), the rotation matrix ([sknano.core]),
    the methods of the atom collection, the region update, the format
    tables of [sknano.io], [os.path.join], and the formatting of the
    default file name (lines 184-194 of [_swnt_generator.py]). *)
Class Collaborators : Type := {
  compute_chiral_angle : Z -> Z -> Q;
  rotation_matrix : Q -> option string -> bool -> list (list Q);
  update_region_limits : Cuboid -> Cuboid;
  clip_bounds : list Atom -> Cuboid -> bool -> list Atom;
  center_CM : list Atom -> list Atom;
  rotate : list Atom -> list (list Q) -> list Atom;
  supported_structure_formats : list string;
  default_structure_format : string;
  path_join : string -> string -> string;
  default_fname : Z -> Z -> Q -> bool -> string
}.

(** [xrange(a, b)] *)
Definition xrange (a b : Z) : list Z :=
  map (fun k => (a + Z.of_nat k)%Z) (seq 0 (Z.to_nat (b - a))).

(** [s.endswith(suffix)] and [s.endswith(tuple)] *)
Definition endswith (s suffix : string) : bool :=
  let n := String.length s in
  let k := String.length suffix in
  (k <=? n)%nat && String.eqb (String.substring (n - k) k s) suffix.

Definition endswith_any (s : string) (suffixes : list string) : bool :=
  existsb (endswith s) suffixes.

(** ** The SWNT generator *)

Module SWNT.

(** The attributes of a generator.  [n] to [_assume_integer_unit_cells]
    are set by the [SWNT] base class, which is not among the sources:
    they are taken as given.  [calls] records the calls made on the
    collaborators.

    Modelled from the spec: "[N] must be a positive integer derived
    from valid, non-degenerate chiral indices (not both zero)", and
    chiral indices that are both zero "must fail fast with a descriptive
    error before any generation work begins".  A generator therefore
    comes with [N_positive]. *)
Record SWNTGenerator : Type := mkGenerator {
  n : Z;
  m : Z;
  nz : Q;
  element1 : string;
  element2 : string;
  bond : Q;
  M : Z;
  T : Q;
  N : Z;
  rt : Q;
  _L0 : option Q;
  _fix_Lz : bool;
  _assume_integer_unit_cells : bool;
  unit_cell : list Atom;
  structure_atoms : list Atom;
  _fname : option string;
  _fpath : option string;
  calls : list event;
  N_positive : (0 < N)%Z
}.

Definition set_unit_cell (g : SWNTGenerator) (uc : list Atom) : SWNTGenerator :=
  mkGenerator (n g) (m g) (nz g) (element1 g) (element2 g) (bond g) (M g)
    (T g) (N g) (rt g) (_L0 g) (_fix_Lz g) (_assume_integer_unit_cells g)
    uc (structure_atoms g) (_fname g) (_fpath g) (calls g) (N_positive g).

Definition set_structure_atoms (g : SWNTGenerator) (atoms : list Atom)
  : SWNTGenerator :=
  mkGenerator (n g) (m g) (nz g) (element1 g) (element2 g) (bond g) (M g)
    (T g) (N g) (rt g) (_L0 g) (_fix_Lz g) (_assume_integer_unit_cells g)
    (unit_cell g) atoms (_fname g) (_fpath g) (calls g) (N_positive g).

Definition set_fname (g : SWNTGenerator) (fname : string) (fpath : option string)
  : SWNTGenerator :=
  mkGenerator (n g) (m g) (nz g) (element1 g) (element2 g) (bond g) (M g)
    (T g) (N g) (rt g) (_L0 g) (_fix_Lz g) (_assume_integer_unit_cells g)
    (unit_cell g) (structure_atoms g) (Some fname) fpath (calls g)
    (N_positive g).

Definition log (g : SWNTGenerator) (e : event) : SWNTGenerator :=
  mkGenerator (n g) (m g) (nz g) (element1 g) (element2 g) (bond g) (M g)
    (T g) (N g) (rt g) (_L0 g) (_fix_Lz g) (_assume_integer_unit_cells g)
    (unit_cell g) (structure_atoms g) (_fname g) (_fpath g) (calls g ++ [e])
    (N_positive g).

Definition eps : Q := 1 # 100.

(** [while z > T - eps: z -= T].  The loop has no bound of its own: it
    runs on [fuel], and [None] is a loop that has not finished. *)
Fixpoint wrap (fuel : nat) (T z : Q) : option Q :=
  if negb (Qle_bool z (T - eps)) then
    match fuel with
    | O => None
    | S fuel' => wrap fuel' T (z - T)
    end
  else Some z.

Section Generate.

Context `{np.Trig} `{Collaborators}.

(** The body of the loop of [generate_unit_cell] (lines 136-163): the
    two basis atoms of index [i] are appended to the unit cell. *)
Definition basis_atoms (fuel : nat) (g : SWNTGenerator)
    (tau dtau psi dpsi : Q) (uc : list Atom) (i : Z) : option (list Atom) :=
  let x1 := rt g * np.cos (inject_Z i * psi) in
  let y1 := rt g * np.sin (inject_Z i * psi) in
  let z1 := inject_Z i * tau in
  z1 ← wrap fuel (T g) z1;
  let atom1 := Atom_rezero (mkAtom (element1 g) x1 y1 z1) in
  let uc := uc ++ [atom1] in
  let x2 := rt g * np.cos (inject_Z i * psi + dpsi) in
  let y2 := rt g * np.sin (inject_Z i * psi + dpsi) in
  let z2 := inject_Z i * tau - dtau in
  z2 ← wrap fuel (T g) z2;
  let atom2 := Atom_rezero (mkAtom (element2 g) x2 y2 z2) in
  Some (uc ++ [atom2]).

(** The loop [for i in xrange(1, N + 1)] over a list of indices; [None]
    once a wraparound has not finished. *)
Definition loop (fuel : nat) (g : SWNTGenerator) (tau dtau psi dpsi : Q)
    (l : list Z) (uc : option (list Atom)) : option (list Atom) :=
  fold_left (fun uc i => uc ← uc; basis_atoms fuel g tau dtau psi dpsi uc i)
            l uc.

(** [SWNTGenerator.generate_unit_cell].  [N] is positive: the divisions
    by [N] of lines 123 and 126 are defined. *)
Definition generate_unit_cell (fuel : nat) (g : SWNTGenerator)
  : option SWNTGenerator :=
  let aCh := compute_chiral_angle (n g) (m g) in
  let tau := inject_Z (M g) * T g / inject_Z (N g) in
  let dtau := bond g * np.sin (np.pi / 6 - aCh) in
  let psi := 2 * np.pi / inject_Z (N g) in
  let dpsi := bond g * np.cos (np.pi / 6 - aCh) / rt g in
  uc ← loop fuel g tau dtau psi dpsi (xrange 1 (N g + 1)) (Some []);
  Some (set_unit_cell g uc).

(** [SWNTGenerator.generate_structure_data] *)
Definition generate_structure_data (g : SWNTGenerator) : SWNTGenerator :=
  set_structure_atoms g
    (fold_left
       (fun atoms nz =>
          let dr := (0, 0, inject_Z nz * T g) in
          fold_left
            (fun atoms uc_atom =>
               atoms ++ [Atom_translate uc_atom dr.1.1 dr.1.2 dr.2])
            (unit_cell g) atoms)
       (xrange 0 (np.ceil (nz g))) []).

(** The calls on the atom collection, which is updated in place. *)
Definition do_clip_bounds (g : SWNTGenerator) (region : Cuboid)
    (center_before_clipping : bool) : SWNTGenerator :=
  log (set_structure_atoms g
         (clip_bounds (structure_atoms g) region center_before_clipping))
      (ClipBounds region center_before_clipping).

Definition do_center_CM (g : SWNTGenerator) : SWNTGenerator :=
  log (set_structure_atoms g (center_CM (structure_atoms g))) CenterCM.

Definition do_rotate (g : SWNTGenerator) (R_matrix : list (list Q))
  : SWNTGenerator :=
  log (set_structure_atoms g (rotate (structure_atoms g) R_matrix))
      (Rotate R_matrix).

(** The resolution of the structure format (lines 79-89 of [_base.py]);
    [None] stands for a format left at [None]. *)
Definition resolve_format (fname : string) (structure_format : option string)
  : option string :=
  if endswith_any fname supported_structure_formats
     && bool_decide (structure_format = None)
  then find (endswith fname) supported_structure_formats
  else
    match structure_format with
    | None => Some default_structure_format
    | Some f =>
        if negb (existsb (String.eqb f) supported_structure_formats)
           || (negb (endswith_any fname supported_structure_formats)
               && negb (existsb (String.eqb f) supported_structure_formats))
        then Some default_structure_format
        else Some f
    end.

(** [GeneratorMixin.save_data] *)
Definition base_save_data (g : SWNTGenerator) (fname : string)
    (outpath : option string) (structure_format : option string)
    (rotation_angle : option Q) (rot_axis : option string)
    (deg2rad center_CM : bool) : result SWNTGenerator :=
  match resolve_format fname structure_format with
  | None => Raise TypeError
  | Some structure_format =>
      let fname :=
        if negb (endswith fname structure_format)
        then (fname ++ "." ++ structure_format)%string
        else fname in
      let g := set_fname g fname
                 (match outpath with
                  | Some o => Some (path_join o fname)
                  | None => _fpath g
                  end) in
      let g := if center_CM then do_center_CM g else g in
      let g := match rotation_angle with
               | Some angle =>
                   let R_matrix := rotation_matrix angle rot_axis deg2rad in
                   do_rotate g R_matrix
               | None => g
               end in
      Ok (log g (Write fname outpath (structure_atoms g) structure_format))
  end.

(** [SWNTGenerator.save_data] *)
Definition save_data (g : SWNTGenerator) (fname : option string)
    (outpath : option string) (structure_format : option string)
    (rotation_angle : option Q) (rot_axis : option string)
    (deg2rad center_CM : bool) : result SWNTGenerator :=
  let fname :=
    match fname with
    | None => default_fname (n g) (m g) (nz g) (_assume_integer_unit_cells g)
    | Some f => f
    end in
  let g :=
    match _L0 g with
    | Some L0 =>
        if _fix_Lz g then
          let pmin := [NegInf; NegInf; Finite 0] in
          let pmax := [PosInf; PosInf; Finite (10 * L0 + (1 # 4))] in
          let region_bounds := update_region_limits (mkCuboid pmin pmax) in
          do_clip_bounds g region_bounds true
        else g
    | None => g
    end in
  let g := if center_CM then do_center_CM g else g in
  base_save_data g fname outpath structure_format rotation_angle rot_axis
    deg2rad false.

End Generate.

End SWNT.

(** ** What the unit-cell loop appends *)

(** A pair of basis atoms: the two elements, in order, and axial
    coordinates that are results of the wraparound, rezeroed. *)
Definition is_basis_pair (fuel : nat) (g : SWNT.SWNTGenerator) (p : Atom * Atom)
  : Prop :=
  element p.1 = SWNT.element1 g /\ element p.2 = SWNT.element2 g
  /\ (exists raw z', SWNT.wrap fuel (SWNT.T g) raw = Some z'
                     /\ z p.1 = np.snap point_tolerance z')
  /\ (exists raw z', SWNT.wrap fuel (SWNT.T g) raw = Some z'
                     /\ z p.2 = np.snap point_tolerance z').

Definition pair_atoms (ps : list (Atom * Atom)) : list Atom :=
  flat_map (fun p => [p.1; p.2]) ps.

(** ** Sample instances, used to run the model on concrete inputs *)

(** Cosine and sine on the multiples of [pi / 6], the argument being
    rounded to the nearest one; [866025 / 1000000] stands for
    [sqrt 3 / 2] and [355 / 113] for [pi]. *)
Definition sample_pi : Q := 355 # 113.

Definition sixth_turns (q : Q) : Z :=
  (Qfloor (q * 6 / sample_pi + (1 # 2)) mod 12)%Z.

Definition cos_sixth (k : Z) : Q :=
  match k with
  | 0%Z => 1
  | 1%Z | 11%Z => 866025 # 1000000
  | 2%Z | 10%Z => 1 # 2
  | 4%Z | 8%Z => - (1 # 2)
  | 5%Z | 7%Z => - (866025 # 1000000)
  | 6%Z => - 1
  | _ => 0
  end.

Definition sample_trig : np.Trig :=
  {| np.cos := fun q => cos_sixth (sixth_turns q);
     np.sin := fun q => cos_sixth ((sixth_turns q - 3) mod 12)%Z;
     np.pi := sample_pi |}.

(** Stand-ins for the collaborators: the chiral angle of a zigzag tube
    ([m = 0]) is 0 (other indices are given the armchair angle), the
    transformations of the atom collection leave it as it is. *)
Definition sample_collaborators : Collaborators :=
  {| compute_chiral_angle := fun n m => if (m =? 0)%Z then 0 else sample_pi / 6;
     rotation_matrix := fun _ _ _ => [[1; 0; 0]; [0; 1; 0]; [0; 0; 1]];
     update_region_limits := fun region => region;
     clip_bounds := fun atoms _ _ => atoms;
     center_CM := fun atoms => atoms;
     rotate := fun atoms _ => atoms;
     supported_structure_formats := ["xyz"; "data"]%string;
     default_structure_format := "xyz"%string;
     path_join := fun o f => (o ++ "/" ++ f)%string;
     default_fname := fun _ _ _ _ => "swnt"%string |}.

(** The zigzag tube [(n, m) = (1, 0)]: [N = 2], [M = 1], [T = 3 bond],
    [rt = sqrt 3 bond / (2 pi)], with the given bond length and the
    given approximation of [rt]. *)
Definition zigzag_1_0 (bond rt : Q) : SWNT.SWNTGenerator :=
  SWNT.mkGenerator 1 0 1 "C" "C" bond 1 (3 * bond) 2 rt
    None false true [] [] None None [] eq_refl.

(** With the default bond length of 1.42, and with a bond length of
    0.01. *)
Definition zigzag_default : SWNT.SWNTGenerator :=
  zigzag_1_0 (142 # 100) (391438 # 1000000).
Definition zigzag_short_bond : SWNT.SWNTGenerator :=
  zigzag_1_0 (1 # 100) (27566 # 10000000).

(** An axial coordinate within one unit-cell length: [z] in [[0, T)]. *)
Definition axial_in_cell (g : SWNT.SWNTGenerator) (a : Atom) : Prop :=
  0 <= z a /\ z a < SWNT.T g.

(** ** The export pipeline as the specification words it *)

Section Pipeline.

Context `{Collaborators}.

(** Steps 3 to 5 of the pipeline: clip to length when a fixed target
    length was requested, with centering before the clip; then center on
    the centre of mass unless disabled; then rotate when an angle is
    given. *)
Definition spec_pipeline (g : SWNT.SWNTGenerator) (rotation_angle : option Q)
    (rot_axis : option string) (deg2rad center_CM : bool) : list event :=
  (match SWNT._L0 g with
   | Some L0 =>
       if SWNT._fix_Lz g then
         [ClipBounds
            (update_region_limits
               (mkCuboid [NegInf; NegInf; Finite 0]
                         [PosInf; PosInf; Finite (10 * L0 + (1 # 4))]))
            true]
       else []
   | None => []
   end)
  ++ (if center_CM then [CenterCM] else [])
  ++ (match rotation_angle with
      | Some angle => [Rotate (rotation_matrix angle rot_axis deg2rad)]
      | None => []
      end).

(** The effect of a call on the atom collection. *)
Definition apply_event (atoms : list Atom) (e : event) : list Atom :=
  match e with
  | ClipBounds region center_before_clipping =>
      clip_bounds atoms region center_before_clipping
  | CenterCM => center_CM atoms
  | Rotate R_matrix => rotate atoms R_matrix
  | Write _ _ _ _ => atoms
  end.

End Pipeline.

Definition is_rotation (e : event) : bool :=
  match e with Rotate _ => true | _ => false end.

Definition is_clip_or_centering (e : event) : bool :=
  match e with ClipBounds _ _ | CenterCM => true | _ => false end.

(** [nt.save_data()] with the defaults of the signature:
    [center_CM=True], [deg2rad=True], everything else [None]. *)
Definition save_data_defaults `{Collaborators}
    (g : SWNT.SWNTGenerator) : result SWNT.SWNTGenerator :=
  SWNT.save_data g None None None None None true true.

(** A generator asked for a fixed length, with a replicated cell. *)
Definition fixed_length_tube : SWNT.SWNTGenerator :=
  SWNT.mkGenerator 1 0 (5 # 2) "C" "C" (142 # 100) 1 (426 # 100) 2
    (391438 # 1000000) (Some 1) true false
    [] [mkAtom "C" 1 0 0; mkAtom "C" (-1) 0 (142 # 100)] None None []
    eq_refl.

(** The zigzag tube of the default bond length with its unit cell in
    place and two and a half cells requested. *)
Definition replicated_tube : SWNT.SWNTGenerator :=
  SWNT.mkGenerator 1 0 (5 # 2) "C" "C" (142 # 100) 1 (426 # 100) 2
    (391438 # 1000000) None false false
    [mkAtom "C" (- (391438 # 1000000)) 0 (213 # 100);
     mkAtom "C" (391438 # 1000000) 0 (142 # 100);
     mkAtom "C" (391438 # 1000000) 0 0;
     mkAtom "C" (- (391438 # 1000000)) 0 (355 # 100)]
    [] None None [] eq_refl.

(** ** The utilities of [sknano/core/_extras.py] *)

Module extras.

(** The outcome of code that drives an iterator by hand. *)
Inductive iteration (B : Type) : Type :=
| Returns (b : B)
| StopIteration.
Arguments Returns {B} b.
Arguments StopIteration {B}.

Section Containers.

Context {A : Type} `{EqDecision A}.

(** The body of the loop of [ListBasedSet.__init__]:
    [if value not in elements: elements.append(value)]. *)
Definition add_value (elements : list A) (value : A) : list A :=
  if bool_decide (value ∈ elements) then elements else elements ++ [value].

(** [ListBasedSet.__init__]: [elements] after the loop. *)
Definition ListBasedSet (iterable : list A) : list A :=
  fold_left add_value iterable [].

(** [ListBasedSet.__contains__] and [ListBasedSet.__len__] on the
    elements of a set. *)
Definition __contains__ (elements : list A) (value : A) : bool :=
  bool_decide (value ∈ elements).

Definition __len__ (elements : list A) : nat := length elements.

(** [cyclic_pairs]: [a, b = tee(iterable)], then
    [list(zip(a, chain(b, [next(b)])))].  [next(b)] is taken before the
    zip starts, and raises [StopIteration] on an empty iterable. *)
Definition cyclic_pairs (iterable : list A) : iteration (list (A * A)) :=
  match iterable with
  | [] => StopIteration
  | first :: rest => Returns (zip iterable (rest ++ [first]))
  end.

End Containers.

(** [5.0 * np.finfo(float).eps], the default [epsilon] of
    [rezero_array]. *)
Definition default_epsilon : Q := 5 * (1 # 4503599627370496).

(** [rezero_array(a, epsilon)]: anything but an [ndarray] is a
    [TypeError]; the array is rezeroed in place and returned.  The
    element type of the array decides what [np.abs] is. *)
Definition rezero_array (a : pyobj) (epsilon : Q) : result (list Q) :=
  match a with
  | PySeq ArrayK items => do d <- np.asarray items; Ok (np.rezero epsilon d)
  | PyInts ArrayK items =>
      do d <- np.asarray (int_items items);
      Ok (np.rezero_as np.Int64 epsilon d)
  | PyPoint pt => Ok (np.rezero epsilon (coords pt))
  | PyVector vec => Ok (np.rezero_as (vdtype vec) epsilon (vdata vec))
  | PyNone | PyNum _ | PyStr _ | PySeq TupleK _ | PySeq ListK _
  | PyInts TupleK _ | PyInts ListK _ =>
      Raise TypeError
  end.

End extras.

(** ** [SWNTGenerator.__init__] *)

(** The attributes are those the [SWNT] base class has set; with
    [autogen] the unit cell is generated, then the structure. *)
Definition SWNTGenerator_init `{np.Trig} `{Collaborators} (fuel : nat)
    (g : SWNT.SWNTGenerator) (autogen : bool) : option SWNT.SWNTGenerator :=
  if autogen then
    g' ← SWNT.generate_unit_cell fuel g;
    Some (SWNT.generate_structure_data g')
  else Some g.

(** ** Sample runtime and an integer vector *)

(** A stand-in for the runtime: a float out of range is converted to
    the least 64-bit integer, as on x86-64, and no name is reserved. *)
Definition sample_runtime : Runtime :=
  {| float_to_int64 := fun _ => np.mk_int64 np.int64_min eq_refl;
     reserved_setattr := fun _ => None |}.

(** The items of [[1, 2, 3]], and the least 64-bit integer. *)
Definition one_two_three : list np.int64 :=
  [np.mk_int64 1 eq_refl; np.mk_int64 2 eq_refl; np.mk_int64 3 eq_refl].

Definition least_int64 : np.int64 := np.mk_int64 np.int64_min eq_refl.

(** The vector [Vector([1, 2, 3])], of element type [int64], in the
    empty store; its points are those of [sample_heap]. *)
Definition int_vector : Vector :=
  mkVectorOf np.Int64 false [1; 2; 3] 3 (Some 1%nat) (Some 0%nat) ∅.

(** The vector [Vector(np.array([-2**63]))] and its store. *)
Definition least_heap : heap :=
  [mkPoint [0] 1 ∅; mkPoint [0 + inject_Z np.int64_min] 1 ∅].
Definition least_vector : Vector :=
  mkVectorOf np.Int64 false [inject_Z np.int64_min] 1
             (Some 1%nat) (Some 0%nat) ∅.

(** * Part II: properties *)

(** * Properties of [Point] *)

Section PointFacts.

Lemma zeros_of_nat (n : nat) : np.zeros (Z.of_nat n) = Ok (repeat 0 n).
Proof.
  unfold np.zeros. destruct (Z.ltb_spec (Z.of_nat n) 0); [lia|].
  by rewrite Nat2Z.id.
Qed.

Lemma setitem_same (a : list Q) (i : nat) (q : Q) :
  a !! i = Some q -> np.setitem a (Z.of_nat i) q = Ok a.
Proof.
  intros Hi. pose proof (lookup_lt_Some _ _ _ Hi) as Hlt.
  unfold np.setitem.
  destruct (Z.ltb_spec (Z.of_nat i) 0); [lia|].
  destruct (Z.leb_spec 0 (Z.of_nat i)); [|lia].
  destruct (Z.ltb_spec (Z.of_nat i) (Z.of_nat (length a))); [|lia].
  cbn. by rewrite Nat2Z.id, list_insert_id.
Qed.

(** Initialising the aliases from the point's own data changes nothing. *)
Lemma finish_len (data : list Q) :
  PointM.finish data (Z.of_nat (length data))
  = Ok (mkPoint data (Z.of_nat (length data)) ∅).
Proof.
  unfold PointM.finish, PointM.init_aliases. cbn [nd coords].
  destruct data as [|a [|b [|c [|d rest]]]]; try reflexivity.
  cbn [length].
  destruct (Z.eqb_spec (Z.of_nat (S (S (S (S (length rest)))))) 2); [lia|].
  destruct (Z.eqb_spec (Z.of_nat (S (S (S (S (length rest)))))) 3); [lia|].
  reflexivity.
Qed.

Lemma fill_missing_tuple (todo p : list (option Q)) (i : nat) :
  PointM.fill_missing TupleK todo i p
  = if has_none todo then Raise TypeError else Ok p.
Proof.
  revert i. induction todo as [|[q|] todo IH]; intros i; cbn; auto.
Qed.

Lemma fill_missing_mutable (k : seq_kind) (seen todo : list (option Q)) :
  k <> TupleK ->
  PointM.fill_missing k todo (length seen) (seen ++ todo)
  = Ok (seen ++ map (fun o => Some (default 0 o)) todo).
Proof.
  intros Hk. revert seen.
  induction todo as [|o todo IH]; intros seen; [reflexivity|].
  assert (Hstep : forall o', PointM.fill_missing k todo (S (length seen))
                     (seen ++ o' :: todo)
                   = Ok (seen ++ o' :: map (fun o => Some (default 0 o)) todo)).
  { intros o'. specialize (IH (seen ++ [o'])).
    rewrite length_app in IH. cbn [length] in IH.
    replace (length seen + 1)%nat with (S (length seen)) in IH by lia.
    by rewrite <- !app_assoc in IH. }
  destruct o as [q|]; cbn [PointM.fill_missing map default].
  - apply Hstep.
  - assert (Hins : <[length seen := Some 0]> (seen ++ None :: todo)
                   = seen ++ Some 0 :: todo).
    { rewrite insert_app_r_alt by lia. by rewrite Nat.sub_diag. }
    destruct k; [done| |]; rewrite Hins; apply Hstep.
Qed.

Lemma asarray_some (l : list Q) : np.asarray (map Some l) = Ok l.
Proof. induction l as [|q l IH]; cbn; [done|]. by rewrite IH. Qed.

Lemma asarray_filled (items : list (option Q)) :
  np.asarray (map (fun o => Some (default 0 o)) items)
  = Ok (default_zero items).
Proof.
  unfold default_zero. rewrite <- (asarray_some (map (default 0) items)).
  by rewrite map_map.
Qed.

Lemma asarray_no_none (items : list (option Q)) :
  has_none items = false -> np.asarray items = Ok (default_zero items).
Proof.
  induction items as [|[q|] items IH]; cbn; intros H; try done.
  by rewrite IH.
Qed.

Lemma sequence_coords_length k items :
  length (sequence_coords k items) = length items.
Proof.
  unfold sequence_coords, default_zero.
  destruct k; [destruct (has_none items)|..];
    by rewrite ?repeat_length, ?length_map.
Qed.

Lemma of_sequence_spec (k : seq_kind) (items : list (option Q)) :
  PointM.of_sequence k items
  = Ok (mkPoint (sequence_coords k items) (Z.of_nat (length items)) ∅).
Proof.
  unfold PointM.of_sequence.
  assert (Hp : match PointM.fill_missing k items 0 items with
               | Raise TypeError => np.zeros (Z.of_nat (length items))
               | Raise e => Raise e
               | Ok p' => np.asarray p'
               end = Ok (sequence_coords k items)).
  { destruct (decide (k = TupleK)) as [->|Hk].
    - rewrite fill_missing_tuple. cbn [sequence_coords].
      destruct (has_none items) eqn:Hn.
      + apply zeros_of_nat.
      + by apply asarray_no_none.
    - pose proof (fill_missing_mutable k [] items Hk) as Hf.
      cbn [app length] in Hf. rewrite Hf, asarray_filled. by destruct k. }
  rewrite Hp. cbn [rbind].
  rewrite finish_len. by rewrite sequence_coords_length.
Qed.

End PointFacts.

(** C7. A constructor input that is neither a sequence nor accompanied by
    a numeric [nd] does not raise: the result is the zero point of
    dimensionality 3. *)
Theorem point_new_fallback (p nd_arg : pyobj) (copy : bool) :
  is_sequence p = false ->
  is_number nd_arg = false ->
  PointM.new p nd_arg copy = Ok (mkPoint [0; 0; 0] 3 ∅).
Proof.
  intros Hp Hn.
  destruct p; try discriminate Hp; destruct nd_arg; try discriminate Hn;
    reflexivity.
Qed.

Lemma point_new_fallback_witness :
  PointM.new (PyStr "origin") PyNone true = Ok (mkPoint [0; 0; 0] 3 ∅).
Proof. apply (point_new_fallback (PyStr "origin") PyNone true); reflexivity. Defined.

(** C6, as stated, fails on tuples: a tuple with a missing component
    makes the item assignment raise [TypeError], and the handler replaces
    the whole point by zeros, the supplied components included. *)
Lemma point_new_tuple_loses_components :
  ~ (exists pt,
        PointM.new (PySeq TupleK [Some 1; None; Some 3]) PyNone true = Ok pt
        /\ coords pt = default_zero [Some 1; None; Some 3]).
Proof.
  intros (pt & Hnew & Hc). vm_compute in Hnew. injection Hnew as <-.
  vm_compute in Hc. discriminate Hc.
Qed.

(** C6, amended.  Construction from a sequence with missing components
    never fails and keeps the length.  For a list or an array every
    missing component becomes zero and the supplied ones are kept; for a
    tuple they are kept when nothing is missing, and the point is all
    zeros as soon as one component is missing. *)
Theorem point_new_missing_components
    (k : seq_kind) (items : list (option Q)) (nd_arg : pyobj) (copy : bool) :
  exists pt,
    PointM.new (PySeq k items) nd_arg copy = Ok pt
    /\ nd pt = Z.of_nat (length items)
    /\ length (coords pt) = length items
    /\ (k <> TupleK \/ has_none items = false ->
        coords pt = default_zero items)
    /\ (k = TupleK -> has_none items = true ->
        coords pt = repeat 0 (length items)).
Proof.
  exists (mkPoint (sequence_coords k items) (Z.of_nat (length items)) ∅).
  cbn [PointM.new nd coords]. split; [apply of_sequence_spec|].
  split; [done|]. split; [apply sequence_coords_length|]. split.
  - intros [Hk|Hn]; unfold sequence_coords.
    + by destruct k.
    + rewrite Hn. by destruct k.
  - intros -> Hn. cbn. by rewrite Hn.
Qed.

Lemma point_new_missing_components_witness :
  exists pt,
    PointM.new (PySeq ListK [Some 1; None; Some 3]) PyNone true = Ok pt
    /\ coords pt = [1; 0; 3].
Proof.
  destruct (point_new_missing_components ListK [Some 1; None; Some 3]
              PyNone true) as (pt & Hnew & _ & _ & Hkeep & _).
  exists pt. split; [exact Hnew|]. apply Hkeep. by left.
Defined.

(** * Properties of [Vector] *)

Section NumPyFacts.

Lemma broadcast_same_length (f : Q -> Q -> Q) (a b : list Q) :
  length a = length b -> np.broadcast f a b = Ok (zip_with f a b).
Proof. intros H. unfold np.broadcast. by rewrite H, Nat.eqb_refl. Qed.

Lemma assign_all_same_length (a value : list Q) :
  length value = length a -> np.assign_all a value = Ok value.
Proof. intros H. unfold np.assign_all. by rewrite H, Nat.eqb_refl. Qed.

Lemma assign_all_length (a value c : list Q) :
  np.assign_all a value = Ok c -> length c = length a.
Proof.
  unfold np.assign_all.
  destruct (Nat.eqb_spec (length value) (length a)) as [E|E].
  - by intros [= <-].
  - destruct value as [|q [|? ?]]; try discriminate.
    intros [= <-]. apply repeat_length.
Qed.

Lemma setitem_nat (a : list Q) (i : nat) (q : Q) :
  (i < length a)%nat -> np.setitem a (Z.of_nat i) q = Ok (<[i := q]> a).
Proof.
  intros Hlt. unfold np.setitem.
  destruct (Z.ltb_spec (Z.of_nat i) 0); [lia|].
  destruct (Z.leb_spec 0 (Z.of_nat i)); [|lia].
  destruct (Z.ltb_spec (Z.of_nat i) (Z.of_nat (length a))); [|lia].
  cbn. by rewrite Nat2Z.id.
Qed.

Lemma setitem_data (a c : list Q) (i : Z) (q : Q) :
  np.setitem a i q = Ok c ->
  exists j, (j < length a)%nat /\ c = <[j := q]> a.
Proof.
  unfold np.setitem.
  set (j := if (i <? 0)%Z then (i + Z.of_nat (length a))%Z else i).
  destruct (Z.leb_spec 0 j); [|discriminate].
  destruct (Z.ltb_spec j (Z.of_nat (length a))); [|discriminate].
  cbn. intros [= <-]. exists (Z.to_nat j). split; [lia|done].
Qed.

Lemma alias_slot_inv (two three : bool) (name : string) (i : nat) :
  alias_slot two three name = Some i ->
  alias_index name = Some i
  /\ ((two = true /\ (i < 2)%nat) \/ (three = true /\ (i < 3)%nat)).
Proof.
  unfold alias_slot. destruct (alias_index name) as [j|] eqn:Hj; [|done].
  assert (j < 3)%nat.
  { unfold alias_index in Hj.
    repeat (destruct (String.eqb name _); [injection Hj as <-; lia|]).
    discriminate. }
  destruct (Nat.ltb_spec j 2); destruct two, three; cbn [andb];
    try discriminate; intros [= <-]; (split; [done|]); auto.
Qed.

Lemma alias_slot_intro (two three : bool) (name : string) (i : nat) :
  alias_index name = Some i ->
  (two = true /\ (i < 2)%nat) \/ (two = false /\ three = true) ->
  alias_slot two three name = Some i.
Proof.
  intros Hi H. unfold alias_slot. rewrite Hi.
  destruct H as [[-> Hlt]|[-> ->]]; cbn [andb]; [|done].
  by destruct (Nat.ltb_spec i 2); [|lia].
Qed.

End NumPyFacts.

Section BoundVectors.

Context `{RT : Runtime}.

Lemma inject_Z_two_three (v : Q) (n : nat) :
  v == inject_Z (Z.of_nat n) ->
  (Qeq_bool v 2 = true -> n = 2%nat) /\ (Qeq_bool v 3 = true -> n = 3%nat).
Proof.
  intros Hv. split; intros H; apply Qeq_bool_iff in H; rewrite H in Hv;
    unfold Qeq in Hv; cbn in Hv; lia.
Qed.

Lemma bound_with_data h vec pt pt0 (d : list Q) :
  bound h vec pt pt0 ->
  length d = length (vdata vec) ->
  bound h (VectorM.with_data vec d) pt pt0.
Proof.
  intros (l & l0 & ? & ? & ? & ? & ? & ? & ? & ? & ? & ?) Hd.
  exists l, l0. cbn. rewrite Hd. by split_and!.
Qed.

Lemma bound_update_p h vec pt pt0 (l : loc) (c : list Q) :
  bound h vec pt pt0 ->
  _p vec = Some l ->
  length c = length (coords pt) ->
  bound (<[l := VectorM.with_coords pt c]> h) vec
        (VectorM.with_coords pt c) pt0.
Proof.
  intros (l' & l0 & Hp & Hp0 & Hne & Hl & Hl0 & [Hn Hd] & [Hn0 Hd0] & Hlen & Hlen0 & Hnd)
         Hpl Hc.
  rewrite Hp in Hpl. injection Hpl as ->.
  exists l, l0. split_and!; try done.
  - apply list_lookup_insert_eq. by eapply lookup_lt_Some.
  - by rewrite list_lookup_insert_ne.
  - split; cbn; [by rewrite Hc|done].
  - cbn. by rewrite Hc.
Qed.

Lemma bound_update_p0 h vec pt pt0 (l0 : loc) (c : list Q) :
  bound h vec pt pt0 ->
  _p0 vec = Some l0 ->
  length c = length (coords pt0) ->
  bound (<[l0 := VectorM.with_coords pt0 c]> h) vec
        pt (VectorM.with_coords pt0 c).
Proof.
  intros (l & l0' & Hp & Hp0 & Hne & Hl & Hl0 & [Hn Hd] & [Hn0 Hd0] & Hlen & Hlen0 & Hnd)
         Hpl Hc.
  rewrite Hp0 in Hpl. injection Hpl as ->.
  exists l, l0. split_and!; try done.
  - by rewrite list_lookup_insert_ne.
  - apply list_lookup_insert_eq. by eapply lookup_lt_Some.
  - split; cbn; [by rewrite Hc|done].
  - cbn. by rewrite Hc.
Qed.

(** A [float64] vector stores a number as it is. *)
Lemma store_float (vec : Vector) (q : Q) :
  vdtype vec = np.Float64 -> VectorM.store vec q = q.
Proof. intros E. unfold VectorM.store. by rewrite E. Qed.

Lemma map_store_float (vec : Vector) (d : list Q) :
  vdtype vec = np.Float64 -> map (VectorM.store vec) d = d.
Proof.
  intros E. induction d as [|q d IH]; [done|].
  cbn [map]. by rewrite IH, store_float.
Qed.

Lemma trunc_inject_Z (z : Z) : np.trunc (inject_Z z) = z.
Proof.
  unfold np.trunc. destruct (Qle_bool 0 _); [apply Qfloor_Z|apply Qceiling_Z].
Qed.

(** An [int64] array stores a 64-bit integer as it is. *)
Lemma cast_int64_fits (overflow : Q -> np.int64) (dt : np.dtype) (z : Z) :
  np.in_int64 z = true -> np.cast overflow dt (inject_Z z) = inject_Z z.
Proof.
  intros Hz. destruct dt; [done|].
  unfold np.cast. cbn zeta. by rewrite trunc_inject_Z, Hz.
Qed.

Lemma asarray_int_items (items : list np.int64) :
  np.asarray (int_items items)
  = Ok (map (fun i => inject_Z (np.int64_val i)) items).
Proof.
  unfold int_items. induction items as [|i items IH]; [done|].
  cbn [map np.asarray]. rewrite IH. done.
Qed.

(** The components of a sequence of integers are stored as they are,
    whatever the element type. *)
Lemma int_items_stable (overflow : Q -> np.int64) (dt : np.dtype)
    (items : list np.int64) (v : list Q) :
  np.asarray (int_items items) = Ok v ->
  Forall (fun q => np.cast overflow dt q = q) v.
Proof.
  rewrite asarray_int_items. intros [= <-].
  apply List.Forall_forall. intros q Hq.
  apply in_map_iff in Hq as (i & <- & _).
  apply cast_int64_fits, np.int64_range.
Qed.

Lemma float_items_stable (overflow : Q -> np.int64) (v : list Q) :
  Forall (fun q => np.cast overflow np.Float64 q = q) v.
Proof. apply Forall_forall. by intros q _. Qed.

(** A named alias that stands for a component: the component of the
    vector is written, with the conversion its element type asks for,
    and the component of the terminal point becomes the origin's plus
    the value. *)
Lemma setattr_alias h vec pt pt0 (name : string) (value : Q) (i : nat) :
  bound h vec pt pt0 ->
  vector_slot vec name = Some i ->
  exists l x0,
    _p vec = Some l /\ coords pt0 !! i = Some x0
    /\ (i < length (vdata vec))%nat
    /\ VectorM.setattr h vec name value
       = Ok (<[l := VectorM.with_coords pt (<[i := x0 + value]> (coords pt))]> h,
             VectorM.with_data vec
               (<[i := VectorM.store vec value]> (vdata vec))).
Proof.
  intros (l & l0 & Hp & Hp0 & Hne & Hl & Hl0 & [Hn Hd] & [Hn0 Hd0]
          & Hlen & Hlen0 & Hnd) Hslot.
  unfold vector_slot in Hslot.
  destruct (alias_slot_inv _ _ _ _ Hslot) as [Hidx Hcase].
  assert (Hshape : (length (vdata vec) = 2%nat /\ (i < 2)%nat)
                   \/ (length (vdata vec) = 3%nat /\ (i < 3)%nat)).
  { destruct Hcase as [[H2 Hi]|[H3 Hi]].
    - left. split; [|done].
      apply (inject_Z_two_three (vnd vec)); [|done].
      apply Hnd. left. by apply Qeq_bool_iff.
    - right. split; [|done].
      apply (inject_Z_two_three (vnd vec)); [|done].
      apply Hnd. right. by apply Qeq_bool_iff. }
  assert (Hi : (i < length (vdata vec))%nat) by lia.
  destruct (lookup_lt_is_Some_2 (coords pt0) i) as [x0 Hx0]; [lia|].
  exists l, x0. repeat split; try done.
  unfold VectorM.setattr. rewrite Hslot.
  rewrite (setitem_nat _ _ _ Hi). cbn [rbind].
  assert (Hget : PointM.getattr pt0 name = Ok x0).
  { unfold PointM.getattr. rewrite Hd0, lookup_empty, Hlen0.
    erewrite alias_slot_intro; [by rewrite Hx0|done|].
    destruct Hshape as [[-> ?]|[-> ?]]; [left|right]; done. }
  assert (Hset : PointM.setattr pt name (x0 + value)
                 = Ok (VectorM.with_coords pt (<[i := x0 + value]> (coords pt)))).
  { unfold PointM.setattr, VectorM.with_coords. rewrite Hn, Hlen.
    erewrite alias_slot_intro; [|done|].
    - rewrite setitem_nat by lia. done.
    - destruct Hshape as [[-> ?]|[-> ?]]; [left|right]; done. }
  unfold VectorM.sync_terminal. rewrite Hp0, Hp. cbn [VectorM.deref].
  rewrite Hl0, Hget, Hl, Hset. done.
Qed.

Lemma set_p_inv h vec pt pt0 (value : list Q) h' vec' :
  bound h vec pt pt0 ->
  VectorM.set_p h vec value = Ok (h', vec') ->
  exists l c,
    _p vec = Some l /\ np.assign_all (coords pt) value = Ok c
    /\ h' = <[l := VectorM.with_coords pt c]> h
    /\ vec' = VectorM.with_data vec
                (map (VectorM.store vec) (zip_with Qminus c (coords pt0))).
Proof.
  intros (l & l0 & Hp & Hp0 & Hne & Hl & Hl0 & Hw & Hw0 & Hlen & Hlen0 & Hnd).
  unfold VectorM.set_p. rewrite Hp, Hp0. cbn [VectorM.deref]. rewrite Hl.
  destruct (np.assign_all (coords pt) value) as [c|e] eqn:Hc; [|discriminate].
  cbn [rbind]. pose proof (assign_all_length _ _ _ Hc) as Hclen.
  rewrite list_lookup_insert_eq by (by eapply lookup_lt_Some).
  rewrite list_lookup_insert_ne, Hl0 by done. cbn [coords VectorM.with_coords].
  unfold np.sub. rewrite broadcast_same_length by lia. cbn [rbind].
  unfold VectorM.assign_data.
  rewrite assign_all_same_length by (rewrite length_map, length_zip_with; lia).
  cbn [rbind]. intros [= <- <-]. by exists l, c.
Qed.

Lemma set_p0_inv h vec pt pt0 (value : list Q) h' vec' :
  bound h vec pt pt0 ->
  VectorM.set_p0 h vec value = Ok (h', vec') ->
  exists l0 c,
    _p0 vec = Some l0 /\ np.assign_all (coords pt0) value = Ok c
    /\ h' = <[l0 := VectorM.with_coords pt0 c]> h
    /\ vec' = VectorM.with_data vec
                (map (VectorM.store vec) (zip_with Qminus (coords pt) c)).
Proof.
  intros (l & l0 & Hp & Hp0 & Hne & Hl & Hl0 & Hw & Hw0 & Hlen & Hlen0 & Hnd).
  unfold VectorM.set_p0. rewrite Hp, Hp0. cbn [VectorM.deref]. rewrite Hl0.
  destruct (np.assign_all (coords pt0) value) as [c|e] eqn:Hc; [|discriminate].
  cbn [rbind]. pose proof (assign_all_length _ _ _ Hc) as Hclen.
  rewrite list_lookup_insert_eq by (by eapply lookup_lt_Some).
  rewrite list_lookup_insert_ne, Hl by done. cbn [coords VectorM.with_coords].
  unfold np.sub. rewrite broadcast_same_length by lia. cbn [rbind].
  unfold VectorM.assign_data.
  rewrite assign_all_same_length by (rewrite length_map, length_zip_with; lia).
  cbn [rbind]. intros [= <- <-]. by exists l0, c.
Qed.



Lemma displacement_refl (vec : Vector) (pt pt0 : Point) :
  vdata vec = zip_with Qminus (coords pt) (coords pt0) ->
  displacement vec pt pt0.
Proof.
  unfold displacement. intros ->.
  apply Forall_Forall2_diag, Forall_forall. intros. reflexivity.
Qed.

(** Writing component [i] of the vector and of the terminal point as
    the alias path does keeps [v = p - p0]. *)
Lemma displacement_alias vec pt pt0 (i : nat) (x0 value : Q) :
  displacement vec pt pt0 ->
  coords pt0 !! i = Some x0 ->
  displacement (VectorM.with_data vec (<[i := value]> (vdata vec)))
               (VectorM.with_coords pt (<[i := x0 + value]> (coords pt)))
               pt0.
Proof.
  unfold displacement. cbn. intros H Hx0.
  apply Forall2_same_length_lookup. split.
  - rewrite length_insert, length_zip_with, length_insert.
    apply Forall2_length in H. by rewrite length_zip_with in H.
  - intros j a b Ha Hb.
    apply lookup_zip_with_Some in Hb as (y & y0 & -> & Hy & Hy0).
    destruct (decide (i = j)) as [->|Hij].
    + pose proof (lookup_lt_Some _ _ _ Ha) as Hlt1.
      pose proof (lookup_lt_Some _ _ _ Hy) as Hlt2.
      rewrite length_insert in Hlt1, Hlt2.
      rewrite list_lookup_insert_eq in Ha, Hy by done.
      injection Ha as <-. injection Hy as <-.
      rewrite Hx0 in Hy0. injection Hy0 as <-. ring.
    + rewrite list_lookup_insert_ne in Ha, Hy by done.
      eapply Forall2_lookup_lr; [exact H|exact Ha|].
      apply lookup_zip_with_Some. eauto.
Qed.

End BoundVectors.

Lemma sample_vector_bound :
  bound sample_heap sample_vector (mkPoint [1; 2; 3] 3 ∅) (mkPoint [0; 0; 0] 3 ∅).
Proof.
  exists 1%nat, 0%nat. by split_and!.
Defined.

Lemma sample_vector_displacement :
  displacement sample_vector (mkPoint [1; 2; 3] 3 ∅) (mkPoint [0; 0; 0] 3 ∅).
Proof. apply displacement_refl. reflexivity. Defined.

(** [int_vector] is [Vector([1, 2, 3])]: three integers make a vector
    of element type [int64], bound to points of element type
    [float64]. *)
Lemma int_vector_new :
  @VectorM.new sample_runtime [] (PyInts ListK one_two_three)
    PyNone PyNone PyNone true
  = Ok (sample_heap, int_vector).
Proof. reflexivity. Qed.

Lemma int_vector_bound :
  bound sample_heap int_vector (mkPoint [1; 2; 3] 3 ∅) (mkPoint [0; 0; 0] 3 ∅).
Proof.
  exists 1%nat, 0%nat. by split_and!.
Defined.

Lemma int_vector_displacement :
  displacement int_vector (mkPoint [1; 2; 3] 3 ∅) (mkPoint [0; 0; 0] 3 ∅).
Proof. apply displacement_refl. reflexivity. Defined.


(** It fails for alias writes too when the vector is of element type
    [int64]: on [Vector([1, 2, 3])], [vec.x = 2.5] stores 2 in the
    vector and 2.5 in the terminal point. *)
Lemma alias_write_truncates_int64 :
  ~ @maintains_displacement sample_runtime (VectorM.SetAttr "x" (5 # 2)).
Proof.
  intros H.
  destruct (H sample_heap int_vector _ _
              [mkPoint [0; 0; 0] 3 ∅; mkPoint [0 + (5 # 2); 2; 3] 3 ∅]
              (mkVectorOf np.Int64 false [2; 2; 3] 3 (Some 1%nat) (Some 0%nat) ∅)
              int_vector_bound int_vector_displacement eq_refl)
    as (pt' & pt0' & Hb & Hd).
  destruct Hb as (l & l0 & Hp & Hp0 & _ & Hl & Hl0 & _).
  injection Hp as <-. injection Hp0 as <-.
  injection Hl as <-. injection Hl0 as <-.
  unfold displacement in Hd. cbn in Hd.
  apply Forall2_cons_1 in Hd as [Hd _]. vm_compute in Hd. discriminate Hd.
Qed.



Section Construction.

Context `{RT : Runtime}.

Lemma point_new_wf (p nd_arg : pyobj) (copy : bool) (pt : Point) :
  PointM.new p nd_arg copy = Ok pt -> wf_point pt.
Proof.
  assert (Hz : forall n, (do p' <- np.zeros n; PointM.finish p' n) = Ok pt ->
                         wf_point pt).
  { intros n. unfold np.zeros. destruct (Z.ltb_spec n 0); [discriminate|].
    cbn [rbind].
    replace n with (Z.of_nat (length (repeat 0 (Z.to_nat n)))) at 2
      by (rewrite repeat_length; lia).
    rewrite finish_len. intros [= <-]. by split. }
  assert (Hs : forall k items, PointM.of_sequence k items = Ok pt ->
                               wf_point pt).
  { intros k items. rewrite of_sequence_spec. intros [= <-].
    split; cbn; [by rewrite sequence_coords_length|done]. }
  destruct p; cbn [PointM.new]; eauto.
  rewrite finish_len. intros [= <-]. by split.
Qed.

Lemma point_arg_wf (arg : pyobj) (n : Q) (pt : Point) :
  VectorM.point_arg arg n = Ok pt -> wf_point pt.
Proof. unfold VectorM.point_arg. destruct arg; by eapply point_new_wf. Qed.

Lemma Qeq_bool_inject_nat (n m : nat) :
  Qeq_bool (inject_Z (Z.of_nat n)) (inject_Z (Z.of_nat m)) = (n =? m)%nat.
Proof.
  destruct (Nat.eqb_spec n m) as [->|Hne].
  - apply Qeq_bool_iff. reflexivity.
  - destruct (Qeq_bool _ _) eqn:E; [|done].
    apply Qeq_bool_iff in E. unfold Qeq in E. cbn in E. lia.
Qed.

(** An alias write that stores what is already there, in the vector
    and in its terminal point, changes nothing. *)
Lemma setattr_same h vec (name : string) (value : Q) (i : nat)
    (l l0 : loc) (pt pt0 : Point) :
  vector_slot vec name = Some i ->
  vdata vec !! i = Some value ->
  VectorM.store vec value = value ->
  _p vec = Some l -> _p0 vec = Some l0 ->
  h !! l = Some pt -> h !! l0 = Some pt0 ->
  match PointM.getattr pt0 name with
  | Ok x0 => PointM.setattr pt name (x0 + value) = Ok pt
  | Raise e => e = AttributeError
  end ->
  VectorM.setattr h vec name value = Ok (h, vec).
Proof.
  intros Hslot Hv Hst Hp Hp0 Hl Hl0 Hsync.
  unfold VectorM.setattr. unfold vector_slot in Hslot. rewrite Hslot, Hst.
  rewrite (setitem_same _ _ _ Hv). cbn [rbind].
  unfold VectorM.sync_terminal. rewrite Hp0, Hp. cbn [VectorM.deref].
  rewrite Hl0, Hl.
  destruct (PointM.getattr pt0 name) as [x0|e].
  - rewrite Hsync. cbn [rbind]. rewrite list_insert_id by done.
    by destruct vec.
  - subst e. cbn [rbind]. by destruct vec.
Qed.

(** In the sequence branch the alias initialisation finds the terminal
    point already equal to [p0 + v], and components that are stored as
    they are. *)
Lemma init_aliases_fresh (h : heap) (dt : np.dtype) (view : bool)
    (pt0 : Point) (v pc : list Q) :
  wf_point pt0 ->
  np.add (coords pt0) v = Ok pc ->
  Forall (fun q => np.cast float_to_int64 dt q = q) v ->
  let h2 := h ++ [pt0; VectorM.ufunc_result pt0 pc] in
  let vec := mkVectorOf dt view v (inject_Z (Z.of_nat (length v)))
               (Some (S (length h))) (Some (length h)) ∅ in
  VectorM.init_aliases h2 vec = Ok (h2, vec).
Proof.
  intros [Hn0 Hd0] Hadd Hstable h2 vec.
  assert (Hl0 : h2 !! length h = Some pt0).
  { unfold h2. rewrite lookup_app_r by lia. by rewrite Nat.sub_diag. }
  assert (Hl : h2 !! S (length h) = Some (VectorM.ufunc_result pt0 pc)).
  { unfold h2. rewrite lookup_app_r by lia.
    by replace (S (length h) - length h)%nat with 1%nat by lia. }
  unfold VectorM.init_aliases. cbn [vnd vdata vec].
  change 2 with (inject_Z (Z.of_nat 2)). change 3 with (inject_Z (Z.of_nat 3)).
  rewrite !Qeq_bool_inject_nat.
  assert (Hstep : forall name i value,
             vector_slot vec name = Some i -> v !! i = Some value ->
             (length v = 2 \/ length v = 3)%nat ->
             VectorM.setattr h2 vec name value = Ok (h2, vec)).
  { intros name i value Hslot Hv Hshape.
    eapply setattr_same; try done.
    { exact (proj1 (Forall_lookup _ _) Hstable _ _ Hv). }
    unfold PointM.getattr. rewrite Hd0, lookup_empty.
    destruct pt0 as [c0 n0 d0]. cbn [coords] in *.
    unfold vector_slot in Hslot. cbn [vnd vec] in Hslot.
    change 2 with (inject_Z (Z.of_nat 2)) in Hslot.
    change 3 with (inject_Z (Z.of_nat 3)) in Hslot.
    rewrite !Qeq_bool_inject_nat in Hslot.
    destruct (alias_slot_inv _ _ _ _ Hslot) as [Hidx _].
    unfold alias_slot in *. rewrite Hidx in *.
    unfold np.add, np.broadcast in Hadd.
    unfold PointM.setattr, VectorM.ufunc_result. cbn [nd coords pdict].
    clear Hstable.
    destruct Hshape as [Hlen|Hlen];
      destruct v as [|a [|b [|c [|d v']]]]; try discriminate Hlen;
      destruct c0 as [|x [|y [|z [|w c0']]]]; cbn in Hadd;
      try discriminate Hadd; try done;
      injection Hadd as <-; unfold alias_slot; rewrite Hidx;
      destruct i as [|[|[|i]]]; try discriminate Hv;
      cbn in Hslot; try discriminate Hslot;
      cbn in Hv; injection Hv as <-; reflexivity. }
  destruct v as [|a [|b [|c [|d v']]]]; try reflexivity.
  - cbn [length Nat.eqb VectorM.assign_names].
    rewrite (Hstep "x" 0%nat a); [|by vm_compute|done|by left].
    cbn [rbind]. rewrite (Hstep "y" 1%nat b); [|by vm_compute|done|by left].
    reflexivity.
  - cbn [length Nat.eqb VectorM.assign_names].
    rewrite (Hstep "x" 0%nat a); [|by vm_compute|done|by right].
    cbn [rbind]. rewrite (Hstep "y" 1%nat b); [|by vm_compute|done|by right].
    cbn [rbind]. rewrite (Hstep "z" 2%nat c); [|by vm_compute|done|by right].
    reflexivity.
Qed.

End Construction.

Section SequenceBranch.

Context `{RT : Runtime}.


Lemma asarray_length (items : list (option Q)) (v : list Q) :
  np.asarray items = Ok v -> length v = length items.
Proof.
  revert v. induction items as [|[q|] items IH]; intros v; cbn.
  - by intros [= <-].
  - destruct (np.asarray items) as [a|e]; [|discriminate].
    cbn. intros [= <-]. cbn. by rewrite (IH a).
  - discriminate.
Qed.

Lemma of_sequence_inv (h : heap) (dt : np.dtype) (view : bool)
    (items : list (option Q)) (p0 : pyobj) (h' : heap) (vec : Vector) :
  (forall v, np.asarray items = Ok v ->
             Forall (fun q => np.cast float_to_int64 dt q = q) v) ->
  VectorM.of_sequence h dt view items p0 = Ok (h', vec) ->
  exists pt0 v pc,
    VectorM.point_arg p0 (inject_Z (Z.of_nat (length items))) = Ok pt0
    /\ np.asarray items = Ok v
    /\ np.add (coords pt0) v = Ok pc
    /\ h' = h ++ [pt0; VectorM.ufunc_result pt0 pc]
    /\ vec = mkVectorOf dt view v (inject_Z (Z.of_nat (length items)))
               (Some (S (length h))) (Some (length h)) ∅.
Proof.
  intros Hstable. unfold VectorM.of_sequence.
  destruct (VectorM.point_arg p0 _) as [pt0|e] eqn:Hpt0; [|discriminate].
  cbn [rbind].
  destruct (np.asarray items) as [v|e] eqn:Hv; [|discriminate]. cbn [rbind].
  destruct (np.add (coords pt0) v) as [pc|e] eqn:Hpc; [|discriminate].
  cbn [rbind VectorM.alloc].
  assert (Hwf : wf_point pt0) by by eapply point_arg_wf.
  pose proof (init_aliases_fresh h dt view pt0 v pc Hwf Hpc (Hstable v eq_refl))
    as Hinit.
  cbn zeta in Hinit. rewrite (asarray_length _ _ Hv) in Hinit.
  rewrite length_app. cbn [length].
  replace (length h + 1)%nat with (S (length h)) by lia.
  rewrite <- app_assoc. cbn [app]. rewrite Hinit.
  intros [= <- <-]. by exists pt0, v, pc.
Qed.

(** The sequence branch of [__new__], for a tuple, a list, an array or
    a point. *)
Lemma new_sequence_inv (h : heap) (v nd_arg p p0 : pyobj) (copy : bool)
    (items : list (option Q)) (h' : heap) (vec : Vector) :
  sequence_items v = Some items ->
  VectorM.new h v nd_arg p p0 copy = Ok (h', vec) ->
  exists pt0 d pc,
    VectorM.point_arg p0 (inject_Z (Z.of_nat (length items))) = Ok pt0
    /\ np.asarray items = Ok d
    /\ np.add (coords pt0) d = Ok pc
    /\ h' = h ++ [pt0; VectorM.ufunc_result pt0 pc]
    /\ vdata vec = d
    /\ vnd vec = inject_Z (Z.of_nat (length items))
    /\ _p vec = Some (S (length h)) /\ _p0 vec = Some (length h)
    /\ vdict vec = ∅.
Proof.
  intros Hitems Hnew.
  destruct v as [| | |k its|pt|vec0|k its]; try discriminate Hitems;
    injection Hitems as <-; cbn [VectorM.new] in Hnew.
  - apply of_sequence_inv in Hnew
      as (pt0 & d & pc & ? & ? & ? & -> & ->);
      [|intros; apply float_items_stable].
    by exists pt0, d, pc.
  - apply of_sequence_inv in Hnew
      as (pt0 & d & pc & ? & ? & ? & -> & ->);
      [|intros; apply float_items_stable].
    by exists pt0, d, pc.
  - apply of_sequence_inv in Hnew
      as (pt0 & d & pc & ? & ? & ? & -> & ->);
      [|intros; by eapply int_items_stable].
    by exists pt0, d, pc.
Qed.

End SequenceBranch.






Section Maintained.

Context `{RT : Runtime}.

Lemma assign_names_length h vec (names : list string) (values : list Q) r :
  VectorM.assign_names h vec names values = Ok r ->
  length values = length names.
Proof.
  revert h vec values.
  induction names as [|name names IH]; intros h vec [|value values];
    cbn; try discriminate; [done|].
  destruct (VectorM.setattr h vec name value) as [[h1 vec1]|e]; [|discriminate].
  cbn. intros Hr. by rewrite (IH _ _ _ Hr).
Qed.

(** On a [float64] vector a write through an alias, or a replacement
    of [p] or [p0], keeps a bound vector bound and keeps
    [v = p - p0]. *)
Lemma mutate_maintains h vec pt pt0 (m : VectorM.mutation) h' vec' :
  tracked_write vec m = true ->
  vdtype vec = np.Float64 ->
  bound h vec pt pt0 ->
  displacement vec pt pt0 ->
  VectorM.mutate h vec m = Ok (h', vec') ->
  exists pt' pt0', bound h' vec' pt' pt0' /\ displacement vec' pt' pt0'.
Proof.
  intros Hm Hdt Hb Hd Hrun.
  pose proof Hb as (_ & _ & _ & _ & _ & _ & _ & _ & _ & Hlen & Hlen0 & _).
  destruct m as [name value|i value|value|value]; [|done|..];
    cbn [VectorM.mutate] in Hrun.
  - cbn [tracked_write] in Hm.
    destruct (vector_slot vec name) as [i|] eqn:Hslot; [|done].
    destruct (setattr_alias h vec pt pt0 name value i Hb Hslot)
      as (l & x0 & Hp & Hx0 & Hi & Hset').
    rewrite Hset', (store_float _ _ Hdt) in Hrun. injection Hrun as <- <-.
    eexists _, pt0. split.
    + apply bound_with_data; [|by rewrite length_insert].
      apply bound_update_p; [done..|by rewrite length_insert].
    + by apply displacement_alias.
  - destruct (set_p_inv _ _ _ _ _ _ _ Hb Hrun) as (l & c & Hp & Hc & -> & ->).
    rewrite (map_store_float _ _ Hdt).
    pose proof (assign_all_length _ _ _ Hc) as Hclen.
    exists (VectorM.with_coords pt c), pt0. split.
    + apply bound_with_data; [by apply bound_update_p|].
      rewrite length_zip_with. lia.
    + by apply displacement_refl.
  - destruct (set_p0_inv _ _ _ _ _ _ _ Hb Hrun) as (l0 & c & Hp0 & Hc & -> & ->).
    rewrite (map_store_float _ _ Hdt).
    pose proof (assign_all_length _ _ _ Hc) as Hclen.
    exists pt, (VectorM.with_coords pt0 c). split.
    + apply bound_with_data; [by apply bound_update_p0|].
      rewrite length_zip_with. lia.
    + by apply displacement_refl.
Qed.

End Maintained.

Section Rezero.

Lemma snap_spec (epsilon c : Q) :
  (Qabs c <= epsilon -> np.snap epsilon c = 0)
  /\ (~ Qabs c <= epsilon -> np.snap epsilon c = c).
Proof.
  unfold np.snap. destruct (Qle_bool (Qabs c) epsilon) eqn:E.
  - apply Qle_bool_iff in E. split; [done|]. intros H. by destruct H.
  - split; [|done]. intros H. apply Qle_bool_iff in H. congruence.
Qed.

Lemma snap_idempotent (epsilon c : Q) :
  np.snap epsilon (np.snap epsilon c) = np.snap epsilon c.
Proof.
  unfold np.snap. destruct (Qle_bool (Qabs c) epsilon) eqn:E.
  - by destruct (Qle_bool (Qabs 0) epsilon).
  - by rewrite E.
Qed.

Lemma rezero_idempotent (epsilon : Q) (a : list Q) :
  np.rezero epsilon (np.rezero epsilon a) = np.rezero epsilon a.
Proof.
  unfold np.rezero. rewrite map_map. apply map_ext. intros c.
  apply snap_idempotent.
Qed.

Lemma rezero_rezeroed (epsilon : Q) (a : list Q) :
  rezeroed epsilon a (np.rezero epsilon a).
Proof.
  split; [apply length_map|]. intros i c Hi.
  exists (np.snap epsilon c). split; [|apply snap_spec].
  unfold np.rezero. revert i Hi.
  induction a as [|c0 a IH]; intros [|i]; cbn; try done.
  - by intros [= ->].
  - apply IH.
Qed.

(** [np.abs] on an [int64] component: below, and equal unless the
    component is the least integer. *)
Lemma abs_int64_spec (c : Q) :
  (c == inject_Z np.int64_min -> np.abs np.Int64 c = c)
  /\ (~ c == inject_Z np.int64_min -> np.abs np.Int64 c = Qabs c).
Proof.
  unfold np.abs. destruct (Qeq_bool c (inject_Z np.int64_min)) eqn:E.
  - split; [done|]. intros H. destruct H. by apply Qeq_bool_iff.
  - split; [|done]. intros H. apply Qeq_bool_iff in H. congruence.
Qed.

Lemma abs_le_Qabs (dt : np.dtype) (c : Q) : np.abs dt c <= Qabs c.
Proof.
  destruct dt; cbn [np.abs]; [apply Qle_refl|].
  destruct (Qeq_bool c (inject_Z np.int64_min)); [apply Qle_Qabs|apply Qle_refl].
Qed.

Lemma snap_as_idempotent (dt : np.dtype) (epsilon c : Q) :
  np.snap_as dt epsilon (np.snap_as dt epsilon c) = np.snap_as dt epsilon c.
Proof.
  unfold np.snap_as. destruct (Qle_bool (np.abs dt c) epsilon) eqn:E.
  - by destruct (Qle_bool (np.abs dt 0) epsilon).
  - by rewrite E.
Qed.

Lemma rezero_as_idempotent (dt : np.dtype) (epsilon : Q) (a : list Q) :
  np.rezero_as dt epsilon (np.rezero_as dt epsilon a)
  = np.rezero_as dt epsilon a.
Proof.
  unfold np.rezero_as. rewrite map_map. apply map_ext. intros c.
  apply snap_as_idempotent.
Qed.

Lemma rezero_as_lookup (dt : np.dtype) (epsilon : Q) (a : list Q) (i : nat)
    (c : Q) :
  a !! i = Some c ->
  np.rezero_as dt epsilon a !! i = Some (np.snap_as dt epsilon c).
Proof.
  unfold np.rezero_as. revert i.
  induction a as [|c0 a IH]; intros [|i]; cbn; try done.
  - by intros [= ->].
  - apply IH.
Qed.

(** Whatever the element type, a component of absolute value at most
    [epsilon] is set to zero. *)
Lemma snap_as_small (dt : np.dtype) (epsilon c : Q) :
  Qabs c <= epsilon -> np.snap_as dt epsilon c = 0.
Proof.
  intros Hc. unfold np.snap_as.
  destruct (Qle_bool (np.abs dt c) epsilon) eqn:E; [done|].
  assert (Hle : np.abs dt c <= epsilon)
    by (eapply Qle_trans; [apply abs_le_Qabs|done]).
  apply Qle_bool_iff in Hle. congruence.
Qed.

Lemma rezero_as_float (epsilon : Q) (a : list Q) :
  np.rezero_as np.Float64 epsilon a = np.rezero epsilon a.
Proof. reflexivity. Qed.

Lemma snap_int64_spec (epsilon c : Q) :
  let wraps := c == inject_Z np.int64_min /\ inject_Z np.int64_min <= epsilon in
  (Qabs c <= epsilon \/ wraps -> np.snap_as np.Int64 epsilon c = 0)
  /\ (~ (Qabs c <= epsilon \/ wraps) -> np.snap_as np.Int64 epsilon c = c).
Proof.
  cbn zeta. split.
  - intros [Hc|[Hmin Hle]]; [by apply snap_as_small|].
    unfold np.snap_as. rewrite (proj1 (abs_int64_spec c) Hmin).
    destruct (Qle_bool c epsilon) eqn:E; [done|].
    assert (Hc : c <= epsilon) by by rewrite Hmin.
    apply Qle_bool_iff in Hc. congruence.
  - intros Hno. unfold np.snap_as.
    destruct (Qle_bool (np.abs np.Int64 c) epsilon) eqn:E; [|done].
    apply Qle_bool_iff in E. destruct Hno.
    destruct (Qeq_dec c (inject_Z np.int64_min)) as [Hmin|Hmin].
    + right. split; [done|].
      rewrite (proj1 (abs_int64_spec c) Hmin) in E. by rewrite <- Hmin.
    + left. by rewrite (proj2 (abs_int64_spec c) Hmin) in E.
Qed.

Lemma rezero_int64_rezeroed (epsilon : Q) (a : list Q) :
  rezeroed_int64 epsilon a (np.rezero_as np.Int64 epsilon a).
Proof.
  split; [apply length_map|]. intros i c Hi. cbn zeta.
  exists (np.snap_as np.Int64 epsilon c).
  split; [by apply rezero_as_lookup|apply snap_int64_spec].
Qed.

End Rezero.

(** [least_vector] is what the constructor makes of the array of the
    least 64-bit integer. *)
Lemma least_vector_new :
  @VectorM.new sample_runtime [] (PyInts ArrayK [least_int64])
    PyNone PyNone PyNone true
  = Ok (least_heap, least_vector).
Proof. reflexivity. Qed.




(** * Properties of the generator *)

Section Wraparound.

Lemma wrap_le (fuel : nat) (T z z' : Q) :
  SWNT.wrap fuel T z = Some z' -> z' <= T - SWNT.eps.
Proof.
  revert z. induction fuel as [|fuel IH]; intros z; cbn;
    destruct (Qle_bool z (T - SWNT.eps)) eqn:E; cbn; try discriminate.
  - intros [= <-]. by apply Qle_bool_iff.
  - intros [= <-]. by apply Qle_bool_iff.
  - apply IH.
Qed.

(** The loop only ever subtracts: the result is the raw value, or it lies
    above [-eps]. *)
Lemma wrap_lower (fuel : nat) (T z z' : Q) :
  SWNT.wrap fuel T z = Some z' -> z' = z \/ - SWNT.eps < z'.
Proof.
  revert z. induction fuel as [|fuel IH]; intros z; cbn;
    destruct (Qle_bool z (T - SWNT.eps)) eqn:E; cbn; try discriminate.
  - intros [= <-]. by left.
  - intros [= <-]. by left.
  - intros Hw. right.
    assert (Hz : ~ z <= T - SWNT.eps).
    { intros H. apply Qle_bool_iff in H. congruence. }
    destruct (IH _ Hw) as [->|H]; [lra|done].
Qed.

Lemma wrap_deterministic (fuel fuel' : nat) (T z a b : Q) :
  SWNT.wrap fuel T z = Some a -> SWNT.wrap fuel' T z = Some b -> a = b.
Proof.
  revert fuel' z. induction fuel as [|fuel IH]; intros [|fuel'] z; cbn;
    destruct (Qle_bool z (T - SWNT.eps)); cbn; try congruence.
  apply IH.
Qed.

(** With [T > 0] the loop ends: [k] rounds are enough as soon as
    [z <= T - eps + k T]. *)
Lemma wrap_enough (k : nat) (T z : Q) :
  0 < T ->
  z <= T - SWNT.eps + inject_Z (Z.of_nat k) * T ->
  exists z', SWNT.wrap k T z = Some z'.
Proof.
  intros HT. revert z. induction k as [|k IH]; intros z Hz; cbn;
    destruct (Qle_bool z (T - SWNT.eps)) eqn:E; cbn; eauto.
  - change (inject_Z (Z.of_nat 0)) with 0 in Hz.
    assert (z <= T - SWNT.eps) as H%Qle_bool_iff by lra.
    congruence.
  - apply IH. rewrite Nat2Z.inj_succ, <- Z.add_1_r, inject_Z_plus in Hz.
    change (inject_Z 1) with 1 in Hz. lra.
Qed.

Lemma rounds_exist (T z : Q) :
  0 < T -> exists k : nat, z <= T - SWNT.eps + inject_Z (Z.of_nat k) * T.
Proof.
  intros HT.
  set (q := (z - T + SWNT.eps) / T).
  exists (Z.to_nat (Qceiling q)).
  assert (Hq : q <= inject_Z (Z.of_nat (Z.to_nat (Qceiling q)))).
  { eapply Qle_trans; [apply Qle_ceiling|].
    rewrite <- Zle_Qle. lia. }
  assert (Hz : z - T + SWNT.eps == q * T).
  { unfold q. field. lra. }
  assert (q * T <= inject_Z (Z.of_nat (Z.to_nat (Qceiling q))) * T).
  { apply Qmult_le_compat_r; lra. }
  lra.
Qed.

Lemma rounds_mono (T z : Q) (k k' : nat) :
  0 < T -> (k <= k')%nat ->
  z <= T - SWNT.eps + inject_Z (Z.of_nat k) * T ->
  z <= T - SWNT.eps + inject_Z (Z.of_nat k') * T.
Proof.
  intros HT Hk Hz.
  assert (inject_Z (Z.of_nat k) * T <= inject_Z (Z.of_nat k') * T).
  { apply Qmult_le_compat_r; [|lra]. rewrite <- Zle_Qle. lia. }
  lra.
Qed.

(** One number of rounds serves a whole list of raw coordinates. *)
Lemma rounds_exist_all (T : Q) (zs : list Q) :
  0 < T ->
  exists k : nat,
    Forall (fun z => z <= T - SWNT.eps + inject_Z (Z.of_nat k) * T) zs.
Proof.
  intros HT. induction zs as [|z zs [k IH]]; [by exists 0%nat|].
  destruct (rounds_exist T z HT) as [k0 Hk0].
  exists (Nat.max k0 k). constructor.
  - eapply rounds_mono; [done| |exact Hk0]. lia.
  - eapply Forall_impl; [exact IH|]. intros z' Hz'. cbn in Hz'.
    eapply rounds_mono; [done| |exact Hz']. lia.
Qed.

End Wraparound.

Section UnitCell.

Context `{np.Trig} `{Collaborators}.

(** The atoms appended for the indices of [l]: one pair per index. *)
Lemma basis_atoms_inv (fuel : nat) (g : SWNT.SWNTGenerator)
    (tau dtau psi dpsi : Q) (uc uc' : list Atom) (i : Z) :
  SWNT.basis_atoms fuel g tau dtau psi dpsi uc i = Some uc' ->
  exists x1 y1 z1 x2 y2 z2,
    SWNT.wrap fuel (SWNT.T g) (inject_Z i * tau) = Some z1
    /\ SWNT.wrap fuel (SWNT.T g) (inject_Z i * tau - dtau) = Some z2
    /\ uc' = uc ++ [Atom_rezero (mkAtom (SWNT.element1 g) x1 y1 z1);
                    Atom_rezero (mkAtom (SWNT.element2 g) x2 y2 z2)].
Proof.
  unfold SWNT.basis_atoms.
  destruct (SWNT.wrap fuel (SWNT.T g) (inject_Z i * tau)) as [z1|]; [|done].
  destruct (SWNT.wrap fuel (SWNT.T g) (inject_Z i * tau - dtau)) as [z2|];
    [|done].
  cbn. intros [= <-]. rewrite <- app_assoc. by eexists _, _, z1, _, _, z2.
Qed.

Lemma basis_atoms_deterministic (fuel fuel' : nat) (g : SWNT.SWNTGenerator)
    (tau dtau psi dpsi : Q) (uc a b : list Atom) (i : Z) :
  SWNT.basis_atoms fuel g tau dtau psi dpsi uc i = Some a ->
  SWNT.basis_atoms fuel' g tau dtau psi dpsi uc i = Some b ->
  a = b.
Proof.
  unfold SWNT.basis_atoms.
  destruct (SWNT.wrap fuel _ (inject_Z i * tau)) as [z1|] eqn:E1; [|done].
  destruct (SWNT.wrap fuel' _ (inject_Z i * tau)) as [z1'|] eqn:E1'; [|done].
  destruct (SWNT.wrap fuel _ (inject_Z i * tau - dtau)) as [z2|] eqn:E2; [|done].
  destruct (SWNT.wrap fuel' _ (inject_Z i * tau - dtau)) as [z2'|] eqn:E2';
    [|done].
  rewrite (wrap_deterministic _ _ _ _ _ _ E1 E1').
  rewrite (wrap_deterministic _ _ _ _ _ _ E2 E2'). cbn. congruence.
Qed.

Lemma basis_atoms_enough (k : nat) (g : SWNT.SWNTGenerator)
    (tau dtau psi dpsi : Q) (uc : list Atom) (i : Z) :
  0 < SWNT.T g ->
  inject_Z i * tau
    <= SWNT.T g - SWNT.eps + inject_Z (Z.of_nat k) * SWNT.T g ->
  inject_Z i * tau - dtau
    <= SWNT.T g - SWNT.eps + inject_Z (Z.of_nat k) * SWNT.T g ->
  exists uc', SWNT.basis_atoms k g tau dtau psi dpsi uc i = Some uc'.
Proof.
  intros HT H1 H2. unfold SWNT.basis_atoms.
  destruct (wrap_enough _ _ _ HT H1) as [z1 ->].
  destruct (wrap_enough _ _ _ HT H2) as [z2 ->]. cbn. eauto.
Qed.

Lemma loop_None fuel g tau dtau psi dpsi l :
  SWNT.loop fuel g tau dtau psi dpsi l None = None.
Proof. induction l as [|i l IH]; [done|apply IH]. Qed.

Lemma loop_cons fuel g tau dtau psi dpsi i l uc :
  SWNT.loop fuel g tau dtau psi dpsi (i :: l) (Some uc)
  = SWNT.loop fuel g tau dtau psi dpsi l
      (SWNT.basis_atoms fuel g tau dtau psi dpsi uc i).
Proof. reflexivity. Qed.

Lemma loop_inv fuel g tau dtau psi dpsi l uc0 uc :
  SWNT.loop fuel g tau dtau psi dpsi l (Some uc0) = Some uc ->
  exists ps, uc = uc0 ++ pair_atoms ps
             /\ length ps = length l
             /\ Forall (is_basis_pair fuel g) ps.
Proof.
  revert uc0. induction l as [|i l IH]; intros uc0.
  - cbn. intros [= <-]. exists []. by rewrite app_nil_r.
  - rewrite loop_cons.
    destruct (SWNT.basis_atoms fuel g tau dtau psi dpsi uc0 i) as [uc1|] eqn:E;
      [|by rewrite loop_None].
    intros Hl. destruct (IH _ Hl) as (ps & -> & Hlen & Hps).
    destruct (basis_atoms_inv _ _ _ _ _ _ _ _ _ E)
      as (x1 & y1 & z1 & x2 & y2 & z2 & Hz1 & Hz2 & ->).
    eexists ((_, _) :: ps). split_and!.
    + rewrite <- app_assoc. reflexivity.
    + cbn. by rewrite Hlen.
    + constructor; [|done]. split_and!; cbn; eauto.
Qed.

Lemma loop_deterministic fuel fuel' g tau dtau psi dpsi l uc0 a b :
  SWNT.loop fuel g tau dtau psi dpsi l (Some uc0) = Some a ->
  SWNT.loop fuel' g tau dtau psi dpsi l (Some uc0) = Some b ->
  a = b.
Proof.
  revert uc0. induction l as [|i l IH]; intros uc0.
  - cbn. congruence.
  - rewrite !loop_cons.
    destruct (SWNT.basis_atoms fuel g tau dtau psi dpsi uc0 i) as [u|] eqn:E;
      [|by rewrite loop_None].
    destruct (SWNT.basis_atoms fuel' g tau dtau psi dpsi uc0 i) as [u'|] eqn:E';
      [|by rewrite loop_None].
    rewrite (basis_atoms_deterministic _ _ _ _ _ _ _ _ _ _ _ E E').
    apply IH.
Qed.

Lemma loop_enough (k : nat) g tau dtau psi dpsi l uc0 :
  0 < SWNT.T g ->
  Forall (fun z => z <= SWNT.T g - SWNT.eps + inject_Z (Z.of_nat k) * SWNT.T g)
         (flat_map (fun i => [inject_Z i * tau; inject_Z i * tau - dtau]) l) ->
  exists uc, SWNT.loop k g tau dtau psi dpsi l (Some uc0) = Some uc.
Proof.
  intros HT. revert uc0. induction l as [|i l IH]; intros uc0 Hz.
  - by exists uc0.
  - cbn [flat_map app] in Hz.
    apply Forall_cons in Hz as [H1 Hz]. apply Forall_cons in Hz as [H2 Hz].
    rewrite loop_cons.
    destruct (basis_atoms_enough k g tau dtau psi dpsi uc0 i HT H1 H2)
      as [uc1 ->].
    by apply IH.
Qed.

Lemma pair_atoms_length ps : length (pair_atoms ps) = (2 * length ps)%nat.
Proof.
  unfold pair_atoms. induction ps as [|p ps IH]; cbn; [done|]. rewrite IH. lia.
Qed.

Lemma pair_atoms_lookup ps k p :
  ps !! k = Some p ->
  pair_atoms ps !! (2 * k)%nat = Some p.1
  /\ pair_atoms ps !! (2 * k + 1)%nat = Some p.2.
Proof.
  revert k. induction ps as [|q ps IH]; intros [|k] Hk; try done.
  - injection Hk as ->. by split.
  - change (pair_atoms (q :: ps)) with (q.1 :: q.2 :: pair_atoms ps).
    replace (2 * S k)%nat with (S (S (2 * k))) by lia.
    replace (S (S (2 * k)) + 1)%nat with (S (S (2 * k + 1))) by lia.
    apply (IH k Hk).
Qed.

Lemma pair_atoms_Forall (P : Atom -> Prop) ps :
  Forall (fun p => P p.1 /\ P p.2) ps -> Forall P (pair_atoms ps).
Proof.
  induction 1 as [|p ps [H1 H2] _ IH]; cbn; [constructor|].
  by repeat constructor.
Qed.

Lemma xrange_length (a b : Z) : length (xrange a b) = Z.to_nat (b - a).
Proof. unfold xrange. by rewrite length_map, length_seq. Qed.

(** The unit cell a finished generation stores. *)
Lemma generate_unit_cell_inv (fuel : nat) (g g' : SWNT.SWNTGenerator) :
  SWNT.generate_unit_cell fuel g = Some g' ->
  exists ps,
    g' = SWNT.set_unit_cell g (pair_atoms ps)
    /\ length ps = Z.to_nat (SWNT.N g)
    /\ Forall (is_basis_pair fuel g) ps.
Proof.
  unfold SWNT.generate_unit_cell. cbn zeta.
  destruct (SWNT.loop _ _ _ _ _ _ _ _) as [uc|] eqn:E; [|done].
  cbn. intros [= <-].
  destruct (loop_inv _ _ _ _ _ _ _ _ _ E) as (ps & -> & Hlen & Hps).
  exists ps. split_and!; try done.
  rewrite Hlen, xrange_length. f_equal. lia.
Qed.

Lemma generate_unit_cell_enough (g : SWNT.SWNTGenerator) :
  0 < SWNT.T g ->
  exists fuel g', SWNT.generate_unit_cell fuel g = Some g'.
Proof.
  intros HT. unfold SWNT.generate_unit_cell. cbn zeta.
  match goal with
  | |- context [SWNT.loop _ g ?tau ?dtau ?psi ?dpsi ?l _] =>
      destruct (rounds_exist_all (SWNT.T g)
                  (flat_map (fun i => [inject_Z i * tau; inject_Z i * tau - dtau]) l)
                  HT) as [k Hk];
      destruct (loop_enough k g tau dtau psi dpsi l [] HT Hk) as [uc Huc]
  end.
  exists k. rewrite Huc. cbn. eauto.
Qed.

Lemma generate_unit_cell_deterministic (fuel fuel' : nat)
    (g a b : SWNT.SWNTGenerator) :
  SWNT.generate_unit_cell fuel g = Some a ->
  SWNT.generate_unit_cell fuel' g = Some b ->
  a = b.
Proof.
  unfold SWNT.generate_unit_cell. cbn zeta.
  destruct (SWNT.loop fuel _ _ _ _ _ _ _) as [u1|] eqn:E1; [|done].
  destruct (SWNT.loop fuel' _ _ _ _ _ _ _) as [u2|] eqn:E2; [|done].
  cbn. intros [= <-] [= <-].
  by rewrite (loop_deterministic _ _ _ _ _ _ _ _ _ _ _ E1 E2).
Qed.

End UnitCell.

(** C4. With [T > 0] unit-cell generation finishes and stores exactly
    [2 N] atoms: for each loop index an atom of [element1] followed by
    an atom of [element2].  The result does not depend on the fuel. *)
Theorem unit_cell_size `{np.Trig} `{Collaborators} (g : SWNT.SWNTGenerator) :
  0 < SWNT.T g ->
  exists fuel g',
    SWNT.generate_unit_cell fuel g = Some g'
    /\ length (SWNT.unit_cell g') = (2 * Z.to_nat (SWNT.N g))%nat
    /\ ((0 <= SWNT.N g)%Z ->
        Z.of_nat (length (SWNT.unit_cell g')) = (2 * SWNT.N g)%Z)
    /\ (forall k, (k < Z.to_nat (SWNT.N g))%nat ->
          exists a1 a2,
            SWNT.unit_cell g' !! (2 * k)%nat = Some a1
            /\ SWNT.unit_cell g' !! (2 * k + 1)%nat = Some a2
            /\ element a1 = SWNT.element1 g
            /\ element a2 = SWNT.element2 g)
    /\ (forall fuel' g'',
          SWNT.generate_unit_cell fuel' g = Some g'' -> g'' = g').
Proof.
  intros HT. destruct (generate_unit_cell_enough g HT) as (fuel & g' & Hg).
  exists fuel, g'. destruct (generate_unit_cell_inv _ _ _ Hg)
    as (ps & -> & Hlen & Hps).
  cbn [SWNT.unit_cell SWNT.set_unit_cell]. split_and!; try done.
  - by rewrite pair_atoms_length, Hlen.
  - intros HN. rewrite pair_atoms_length, Hlen. lia.
  - intros k Hk. destruct (lookup_lt_is_Some_2 ps k) as [p Hp]; [lia|].
    destruct (pair_atoms_lookup _ _ _ Hp) as [H1 H2].
    exists p.1, p.2. split_and!; try done.
    + by destruct (proj1 (Forall_lookup _ _) Hps _ _ Hp) as (? & _).
    + by destruct (proj1 (Forall_lookup _ _) Hps _ _ Hp) as (_ & ? & _).
  - intros fuel' g'' Hg'. eapply generate_unit_cell_deterministic; eauto.
Qed.

Lemma unit_cell_size_witness :
  exists fuel g',
    @SWNT.generate_unit_cell sample_trig sample_collaborators fuel zigzag_default
    = Some g'
    /\ length (SWNT.unit_cell g') = 4%nat.
Proof.
  destruct (@unit_cell_size sample_trig sample_collaborators zigzag_default)
    as (fuel & g' & Hg & Hlen & _); [reflexivity|].
  exists fuel, g'. split; [exact Hg|exact Hlen].
Defined.

(** C2, as stated, fails: the loop only subtracts [T], so nothing keeps
    an axial coordinate above zero.  On the zigzag tube [(1, 0)] with a
    bond length of 0.01 the last basis atom has the raw coordinate
    [T - 0.005], above [T - eps], and is wrapped to [-0.005]. *)
Lemma unit_cell_negative_axial :
  exists g',
    @SWNT.generate_unit_cell sample_trig sample_collaborators 1 zigzag_short_bond
    = Some g'
    /\ ~ Forall (axial_in_cell zigzag_short_bond) (SWNT.unit_cell g').
Proof.
  eexists. split; [vm_compute; reflexivity|].
  intros Hall.
  apply (proj1 (Forall_lookup _ _)) with (i := 3%nat)
    (x := mkAtom "C" (- (27566 # 10000000)) 0 (-20000 # 4000000)) in Hall.
  - destruct Hall as [Hz _]. vm_compute in Hz. by apply Hz.
  - reflexivity.
Qed.

(** C2, amended.  With [T >= eps] unit-cell generation finishes, and
    every basis atom it stores has [z <= T - eps], hence [z < T].  No
    lower bound of zero is promised: whatever the wraparound returns is
    the raw coordinate itself or lies above [-eps]. *)
Theorem unit_cell_axial_bound `{np.Trig} `{Collaborators}
    (g : SWNT.SWNTGenerator) :
  SWNT.eps <= SWNT.T g ->
  (exists fuel g', SWNT.generate_unit_cell fuel g = Some g')
  /\ (forall fuel g',
        SWNT.generate_unit_cell fuel g = Some g' ->
        Forall (fun a => z a <= SWNT.T g - SWNT.eps /\ z a < SWNT.T g)
               (SWNT.unit_cell g'))
  /\ (forall fuel raw z',
        SWNT.wrap fuel (SWNT.T g) raw = Some z' ->
        z' <= SWNT.T g - SWNT.eps /\ (z' = raw \/ - SWNT.eps < z')).
Proof.
  intros HT. split_and!.
  - apply generate_unit_cell_enough. unfold SWNT.eps in HT. lra.
  - intros fuel g' Hg.
    destruct (generate_unit_cell_inv _ _ _ Hg) as (ps & -> & _ & Hps).
    cbn [SWNT.unit_cell SWNT.set_unit_cell].
    apply pair_atoms_Forall. eapply Forall_impl; [exact Hps|].
    assert (Hsnap : forall raw z' c,
               SWNT.wrap fuel (SWNT.T g) raw = Some z' ->
               c = np.snap point_tolerance z' ->
               c <= SWNT.T g - SWNT.eps /\ c < SWNT.T g).
    { intros raw z' c Hw ->. apply wrap_le in Hw.
      unfold np.snap. unfold SWNT.eps in *.
      destruct (Qle_bool (Qabs z') point_tolerance); lra. }
    intros p (_ & _ & (r1 & z1 & Hw1 & Hz1) & (r2 & z2 & Hw2 & Hz2)).
    split; [exact (Hsnap _ _ _ Hw1 Hz1)|exact (Hsnap _ _ _ Hw2 Hz2)].
  - intros fuel raw z' Hw. split; [by eapply wrap_le|by eapply wrap_lower].
Qed.

Lemma unit_cell_axial_bound_witness :
  exists fuel g',
    @SWNT.generate_unit_cell sample_trig sample_collaborators fuel zigzag_default
    = Some g'
    /\ Forall (fun a => z a <= SWNT.T zigzag_default - SWNT.eps
                        /\ z a < SWNT.T zigzag_default)
              (SWNT.unit_cell g').
Proof.
  destruct (@unit_cell_axial_bound sample_trig sample_collaborators
              zigzag_default) as ((fuel & g' & Hg) & Hall & _).
  - vm_compute. discriminate.
  - exists fuel, g'. split; [exact Hg|]. exact (Hall fuel g' Hg).
Defined.

Section Replication.

Lemma map_lookup_Some {A B : Type} (f : A -> B) (l : list A) (i : nat) (a : A) :
  l !! i = Some a -> map f l !! i = Some (f a).
Proof.
  revert i. induction l as [|b l IH]; intros [|i]; cbn; try done.
  - by intros [= ->].
  - apply IH.
Qed.

Lemma append_each {A B : Type} (f : A -> B) (l : list A) (acc : list B) :
  fold_left (fun atoms a => atoms ++ [f a]) l acc = acc ++ map f l.
Proof.
  revert acc. induction l as [|a l IH]; intros acc; cbn.
  - by rewrite app_nil_r.
  - by rewrite IH, <- app_assoc.
Qed.

Lemma append_blocks {A B C : Type} (f : C -> A -> B) (uc : list A)
    (l : list C) (acc : list B) :
  fold_left (fun atoms c => fold_left (fun atoms a => atoms ++ [f c a]) uc atoms)
            l acc
  = acc ++ flat_map (fun c => map (f c) uc) l.
Proof.
  revert acc. induction l as [|c l IH]; intros acc; cbn.
  - by rewrite app_nil_r.
  - by rewrite IH, append_each, <- app_assoc.
Qed.

Lemma blocks_length {A B C : Type} (f : C -> A -> B) (uc : list A) (l : list C) :
  length (flat_map (fun c => map (f c) uc) l) = (length uc * length l)%nat.
Proof.
  induction l as [|c l IH]; cbn; [lia|].
  rewrite length_app, length_map, IH. lia.
Qed.

Lemma blocks_lookup {A B C : Type} (f : C -> A -> B) (uc : list A) (l : list C)
    (r j : nat) (c : C) (a : A) :
  l !! r = Some c -> uc !! j = Some a ->
  flat_map (fun c => map (f c) uc) l !! (r * length uc + j)%nat = Some (f c a).
Proof.
  intros Hr Hj. pose proof (lookup_lt_Some _ _ _ Hj) as Hlt.
  revert r Hr. induction l as [|c' l IH]; intros [|r] Hr; try done.
  - injection Hr as ->. cbn [flat_map].
    rewrite lookup_app_l by (rewrite length_map; lia).
    by apply map_lookup_Some.
  - cbn [flat_map]. rewrite lookup_app_r by (rewrite length_map; lia).
    rewrite length_map.
    replace (S r * length uc + j - length uc)%nat
      with (r * length uc + j)%nat by lia.
    by apply IH.
Qed.

Lemma xrange_lookup (a b : Z) (r : nat) :
  (r < Z.to_nat (b - a))%nat -> xrange a b !! r = Some (a + Z.of_nat r)%Z.
Proof.
  intros Hr. unfold xrange.
  apply (map_lookup_Some (fun k => (a + Z.of_nat k)%Z)).
  by rewrite lookup_seq_lt.
Qed.

End Replication.

(** C3. Replication stores [ceil(nz)] copies of the unit cell, one after
    the other in ascending replica index, each in unit-cell order: atom
    [j] of replica [r] keeps the element of unit-cell atom [j] and is the
    sum of its position and [(0, 0, r T)].  A unit cell of [2 N] atoms
    gives [2 N ceil(nz)] atoms. *)
Theorem replication (g : SWNT.SWNTGenerator) :
  let g' := SWNT.generate_structure_data g in
  let uc := SWNT.unit_cell g in
  let k := Z.to_nat (np.ceil (SWNT.nz g)) in
  SWNT.unit_cell g' = uc
  /\ length (SWNT.structure_atoms g') = (length uc * k)%nat
  /\ (forall r j a,
        (r < k)%nat -> uc !! j = Some a ->
        SWNT.structure_atoms g' !! (r * length uc + j)%nat
        = Some (mkAtom (element a) (x a + 0) (y a + 0)
                       (z a + inject_Z (Z.of_nat r) * SWNT.T g)))
  /\ ((0 <= np.ceil (SWNT.nz g))%Z ->
      Z.of_nat (length uc) = (2 * SWNT.N g)%Z ->
      Z.of_nat (length (SWNT.structure_atoms g'))
      = (2 * SWNT.N g * np.ceil (SWNT.nz g))%Z).
Proof.
  cbn zeta. unfold SWNT.generate_structure_data.
  cbn [SWNT.unit_cell SWNT.structure_atoms SWNT.set_structure_atoms fst snd].
  rewrite (append_blocks
             (fun nz a => Atom_translate a 0 0 (inject_Z nz * SWNT.T g))).
  cbn [app].
  assert (Hlen : length (xrange 0 (np.ceil (SWNT.nz g)))
                 = Z.to_nat (np.ceil (SWNT.nz g))).
  { rewrite xrange_length. f_equal. lia. }
  split_and!; try done.
  - by rewrite blocks_length, Hlen.
  - intros r j a Hr Hj.
    erewrite blocks_lookup; [reflexivity| |exact Hj].
    by rewrite xrange_lookup by lia.
  - intros Hk HN. rewrite blocks_length, Hlen. nia.
Qed.

Lemma replication_witness :
  Z.of_nat (length (SWNT.structure_atoms
                      (SWNT.generate_structure_data replicated_tube)))
  = (2 * 2 * 3)%Z
  /\ SWNT.structure_atoms (SWNT.generate_structure_data replicated_tube)
       !! 9%nat
     = Some (mkAtom "C" ((391438 # 1000000) + 0) (0 + 0)
                    ((142 # 100) + inject_Z 2 * (426 # 100))).
Proof.
  destruct (replication replicated_tube) as (_ & _ & Hat & HZ).
  split.
  - apply HZ; [vm_compute; discriminate|reflexivity].
  - exact (Hat 2%nat 1%nat _ ltac:(vm_compute; lia) eq_refl).
Defined.

Section ExportCalls.

Context `{Collaborators}.

Lemma find_existsb {A : Type} (p : A -> bool) (l : list A) :
  existsb p l = true -> exists a, find p l = Some a.
Proof.
  induction l as [|a l IH]; cbn; [done|].
  destruct (p a); cbn; eauto.
Qed.

Lemma resolve_format_some (fname : string) (structure_format : option string) :
  exists f, SWNT.resolve_format fname structure_format = Some f.
Proof.
  unfold SWNT.resolve_format.
  destruct (endswith_any fname supported_structure_formats) eqn:E; cbn [andb].
  - destruct structure_format as [f|]; cbn.
    + destruct (_ || _); eauto.
    + by apply find_existsb.
  - destruct structure_format as [f|]; [destruct (_ || _)|]; eauto.
Qed.

Lemma calls_log (g : SWNT.SWNTGenerator) (e : event) :
  SWNT.calls (SWNT.log g e) = SWNT.calls g ++ [e].
Proof. reflexivity. Qed.

(** At most one rotation, after everything else. *)
Lemma spec_pipeline_rotation_last (g : SWNT.SWNTGenerator)
    (rotation_angle : option Q) (rot_axis : option string)
    (deg2rad center_CM : bool) (last : event) (i j : nat) (e1 e2 : event) :
  is_clip_or_centering last = false ->
  (spec_pipeline g rotation_angle rot_axis deg2rad center_CM ++ [last]) !! i
    = Some e1 ->
  (spec_pipeline g rotation_angle rot_axis deg2rad center_CM ++ [last]) !! j
    = Some e2 ->
  is_rotation e1 = true -> is_clip_or_centering e2 = true ->
  (j < i)%nat.
Proof.
  intros Hlast. unfold spec_pipeline.
  destruct (SWNT._L0 g) as [L0|]; [destruct (SWNT._fix_Lz g)|];
    destruct center_CM; destruct rotation_angle as [angle|]; cbn [app];
    intros Hi Hj Hrot Hcc;
    repeat (destruct i as [|i]; cbn in Hi; try discriminate Hi;
            try (injection Hi as <-; try discriminate Hrot));
    repeat (destruct j as [|j]; cbn in Hj; try discriminate Hj;
            try (injection Hj as <-; try discriminate Hcc));
    try lia; congruence.
Qed.

End ExportCalls.

(** C5. [save_data] always reaches the writer, and the calls it makes
    are the pipeline of the specification followed by the write: the
    clip (only with a fixed target length, centering before the clip
    enabled), then the centering (unless disabled; enabled by default),
    then the rotation (only with an angle), then the write of the
    collection so transformed.  No rotation comes before a clip or a
    centering. *)
Theorem export_pipeline_order `{Collaborators} (g : SWNT.SWNTGenerator)
    (fname outpath structure_format : option string)
    (rotation_angle : option Q) (rot_axis : option string)
    (deg2rad center_CM : bool) :
  exists g' fname' format',
    SWNT.save_data g fname outpath structure_format rotation_angle rot_axis
      deg2rad center_CM = Ok g'
    /\ let steps :=
         spec_pipeline g rotation_angle rot_axis deg2rad center_CM in
       let write :=
         Write fname' outpath (SWNT.structure_atoms g') format' in
       SWNT.calls g' = SWNT.calls g ++ steps ++ [write]
       /\ SWNT.structure_atoms g'
          = fold_left apply_event steps (SWNT.structure_atoms g)
       /\ (forall i j e1 e2,
             (steps ++ [write]) !! i = Some e1 ->
             (steps ++ [write]) !! j = Some e2 ->
             is_rotation e1 = true -> is_clip_or_centering e2 = true ->
             (j < i)%nat)
       /\ (exists g0, save_data_defaults g = Ok g0
                      /\ In CenterCM (SWNT.calls g0)).
Proof.
  assert (Hrun : forall fname outpath structure_format rotation_angle rot_axis
                        deg2rad center_CM,
             exists g' fname' format',
               SWNT.save_data g fname outpath structure_format rotation_angle
                 rot_axis deg2rad center_CM = Ok g'
               /\ SWNT.calls g'
                  = SWNT.calls g
                    ++ spec_pipeline g rotation_angle rot_axis deg2rad center_CM
                    ++ [Write fname' outpath (SWNT.structure_atoms g') format']
               /\ SWNT.structure_atoms g'
                  = fold_left apply_event
                      (spec_pipeline g rotation_angle rot_axis deg2rad center_CM)
                      (SWNT.structure_atoms g)).
  { clear. intros fname outpath structure_format rotation_angle rot_axis
      deg2rad center_CM.
    unfold SWNT.save_data, SWNT.base_save_data, spec_pipeline. cbn zeta.
    match goal with
    | |- context [SWNT.resolve_format ?f ?s] =>
        destruct (resolve_format_some f s) as [fmt ->]
    end.
    eexists _, _, fmt. split; [reflexivity|].
    destruct (SWNT._L0 g) as [L0|]; [destruct (SWNT._fix_Lz g)|];
      destruct center_CM; destruct rotation_angle as [angle|];
      cbn -[endswith update_region_limits];
      rewrite <- ?app_assoc; by split. }
  destruct (Hrun fname outpath structure_format rotation_angle rot_axis
              deg2rad center_CM) as (g' & fname' & fmt & Hsave & Hcalls & Hatoms).
  exists g', fname', fmt. split; [exact Hsave|]. cbn zeta. split_and!.
  - exact Hcalls.
  - exact Hatoms.
  - intros i j e1 e2. by apply spec_pipeline_rotation_last.
  - destruct (Hrun None None None None None true true)
      as (g0 & f0 & fmt0 & Hsave0 & Hcalls0 & _).
    exists g0. split; [exact Hsave0|]. rewrite Hcalls0.
    apply in_or_app. right. apply in_or_app. left.
    unfold spec_pipeline. apply in_or_app. right. by left.
Qed.

Lemma export_pipeline_order_witness :
  exists g',
    @SWNT.save_data sample_collaborators fixed_length_tube (Some "tube.xyz"%string)
      None None (Some 90) (Some "z"%string) true true = Ok g'
    /\ exists region R_matrix atoms,
         SWNT.calls g'
         = [ClipBounds region true; CenterCM; Rotate R_matrix;
            Write "tube.xyz" None atoms "xyz"].
Proof.
  destruct (@export_pipeline_order sample_collaborators fixed_length_tube
              (Some "tube.xyz"%string) None None (Some 90) (Some "z"%string)
              true true)
    as (g' & fname' & fmt & Hsave & Hcalls & _).
  exists g'. split; [exact Hsave|].
  vm_compute in Hsave. injection Hsave as <-.
  eexists _, _, _. reflexivity.
Defined.

(** * Part III: further properties of the code *)

Section ExtrasFacts.

Context {A : Type} `{EqDecision A}.

Lemma add_all_spec (acc l : list A) :
  NoDup acc ->
  exists new,
    fold_left extras.add_value l acc = acc ++ new
    /\ NoDup (acc ++ new)
    /\ sublist new l
    /\ (forall a, a ∈ acc ++ new <-> a ∈ acc \/ a ∈ l).
Proof.
  revert acc. induction l as [|v l IH]; intros acc Hacc.
  - exists []. rewrite app_nil_r. split_and!; try done.
    intros a. rewrite elem_of_nil. tauto.
  - cbn [fold_left]. unfold extras.add_value at 2. case_bool_decide as Hv.
    + destruct (IH acc Hacc) as (new & -> & Hnd & Hsub & Hin).
      exists new. split_and!; try done.
      * by apply sublist_cons.
      * intros a. rewrite Hin, elem_of_cons.
        split; [tauto|]. intros [?|[->|?]]; auto.
    + assert (Hacc' : NoDup (acc ++ [v])).
      { apply NoDup_app. split_and!; [done| |apply NoDup_singleton].
        intros a Ha ->%list_elem_of_singleton. done. }
      destruct (IH _ Hacc') as (new & -> & Hnd & Hsub & Hin).
      exists (v :: new). rewrite <- !app_assoc in *. cbn [app] in *.
      split_and!; try done.
      * by apply sublist_skip.
      * intros a. rewrite Hin, elem_of_app, list_elem_of_singleton, elem_of_cons.
        tauto.
Qed.

Lemma add_all_nodup (acc l : list A) :
  NoDup (acc ++ l) -> fold_left extras.add_value l acc = acc ++ l.
Proof.
  revert acc. induction l as [|v l IH]; intros acc Hnd; cbn [fold_left].
  - by rewrite app_nil_r.
  - unfold extras.add_value at 2. case_bool_decide as Hv.
    + apply NoDup_app in Hnd as (_ & Hdis & _).
      destruct (Hdis v Hv). by left.
    + rewrite IH; rewrite <- app_assoc; done.
Qed.

(** A value that heads the elements stays at the head, and the later
    values are added as if it were not there. *)
Lemma add_all_head (a : A) (l acc : list A) :
  a ∉ acc ->
  fold_left extras.add_value l (a :: acc)
  = a :: fold_left extras.add_value (filter (fun b => b <> a) l) acc.
Proof.
  revert acc. induction l as [|v l IH]; intros acc Ha; [done|].
  cbn [fold_left]. destruct (decide (v = a)) as [->|Hv].
  - rewrite filter_cons_False by (intros Hne; by apply Hne).
    unfold extras.add_value at 2.
    rewrite bool_decide_eq_true_2 by apply list_elem_of_here.
    by apply IH.
  - rewrite filter_cons_True by done. cbn [fold_left].
    unfold extras.add_value at 2 4.
    destruct (decide (v ∈ acc)) as [Hin|Hin].
    + rewrite bool_decide_eq_true_2 by (by apply list_elem_of_further).
      rewrite bool_decide_eq_true_2 by done. by apply IH.
    + rewrite bool_decide_eq_false_2
        by (intros [?|?]%elem_of_cons; [by apply Hv|by apply Hin]).
      rewrite bool_decide_eq_false_2 by done.
      change ((a :: acc) ++ [v]) with (a :: (acc ++ [v])).
      apply IH. intros [?|?%list_elem_of_singleton]%elem_of_app;
        [by apply Ha|by apply Hv].
Qed.

End ExtrasFacts.

(** X1. A [ListBasedSet] holds every value of the iterable exactly once,
    in the order of the first occurrences: its first element is the
    first value of the iterable, and the elements after it are the set
    of the later values that differ from it.  Building a set from a
    set, or from values that are already distinct, changes nothing. *)
Theorem ListBasedSet_elements {A : Type} `{EqDecision A} (iterable : list A) :
  let elements := extras.ListBasedSet iterable in
  NoDup elements
  /\ (forall a, extras.__contains__ elements a = true <-> a ∈ iterable)
  /\ sublist elements iterable
  /\ (extras.__len__ elements <= length iterable)%nat
  /\ extras.ListBasedSet elements = elements
  /\ (NoDup iterable -> elements = iterable)
  /\ (iterable = [] -> elements = [])
  /\ (forall first rest,
        iterable = first :: rest ->
        elements
        = first :: extras.ListBasedSet (filter (fun b => b <> first) rest)).
Proof.
  cbn zeta. unfold extras.ListBasedSet.
  destruct (add_all_spec [] iterable (NoDup_nil_2)) as (new & Hnew & Hnd & Hsub & Hin).
  cbn [app] in *. split_and!.
  - by rewrite Hnew.
  - intros a. rewrite Hnew.
    unfold extras.__contains__. rewrite bool_decide_eq_true, Hin.
    rewrite elem_of_nil. tauto.
  - by rewrite Hnew.
  - rewrite Hnew. unfold extras.__len__. by apply sublist_length.
  - rewrite Hnew. by apply (add_all_nodup [] new).
  - intros Hi. by apply (add_all_nodup [] iterable).
  - by intros ->.
  - intros first rest ->. cbn [fold_left].
    change (extras.add_value [] first) with [first].
    apply add_all_head, not_elem_of_nil.
Qed.

Lemma ListBasedSet_elements_witness :
  extras.ListBasedSet [3; 1; 3; 2; 1]%Z = [3; 1; 2]%Z
  /\ extras.ListBasedSet [3; 1; 2]%Z = [3; 1; 2]%Z.
Proof.
  destruct (ListBasedSet_elements [3; 1; 2]%Z) as (_ & _ & _ & _ & _ & Hid & _).
  split; [reflexivity|]. apply Hid.
  apply (bool_decide_unpack (NoDup [3; 1; 2]%Z)). reflexivity.
Defined.

(** X2. [cyclic_pairs] raises [StopIteration] on an empty iterable; on
    [n >= 1] values it returns [n] pairs, the pair of index [i] being
    value [i] with value [(i + 1) mod n]. *)
Theorem cyclic_pairs_spec {A : Type} (iterable : list A) :
  (iterable = [] -> extras.cyclic_pairs iterable = extras.StopIteration)
  /\ (iterable <> [] ->
      exists pairs,
        extras.cyclic_pairs iterable = extras.Returns pairs
        /\ length pairs = length iterable
        /\ forall i a,
             iterable !! i = Some a ->
             exists b,
               iterable !! ((i + 1) mod length iterable)%nat = Some b
               /\ pairs !! i = Some (a, b)).
Proof.
  split; [by intros ->|]. destruct iterable as [|first rest]; [done|].
  intros _. eexists. split; [reflexivity|].
  assert (Hlen : length (rest ++ [first]) = length (first :: rest)).
  { rewrite length_app. cbn. lia. }
  split.
  - rewrite length_zip_with. lia.
  - intros i a Hi. pose proof (lookup_lt_Some _ _ _ Hi) as Hlt.
    assert (Hb : (rest ++ [first]) !! i
                 = (first :: rest) !! ((i + 1) mod length (first :: rest))%nat).
    { cbn [length] in *. destruct (decide (i = length rest)) as [->|Hne].
      - replace (length rest + 1)%nat with (S (length rest)) by lia.
        rewrite Nat.Div0.mod_same. rewrite lookup_app_r by lia.
        by rewrite Nat.sub_diag.
      - rewrite Nat.mod_small by lia. rewrite lookup_app_l by lia.
        by replace (i + 1)%nat with (S i) by lia. }
    destruct (lookup_lt_is_Some_2 (rest ++ [first]) i) as [b Hbi]; [lia|].
    exists b. split; [by rewrite <- Hb|].
    apply lookup_zip_with_Some. by exists a, b.
Qed.

Lemma cyclic_pairs_spec_witness :
  exists pairs,
    extras.cyclic_pairs [1; 2; 3]%Z = extras.Returns pairs
    /\ pairs !! 2%nat = Some (3, 1)%Z.
Proof.
  destruct (cyclic_pairs_spec [1; 2; 3]%Z) as [_ Hpairs].
  destruct Hpairs as (pairs & Hrun & _ & Hat); [done|].
  exists pairs. split; [exact Hrun|].
  destruct (Hat 2%nat 3%Z eq_refl) as (b & Hb & Hp).
  cbn in Hb. injection Hb as <-. exact Hp.
Defined.

(** X3. [rezero_array] accepts arrays only: a list, a tuple, a number or
    [None] is a [TypeError].  On an array of floats, on a point and on a
    vector of element type [float64] it returns the data with exactly
    the components of absolute value at most [epsilon] set to zero.  On
    an array of integers and on a vector of element type [int64] it
    sets to zero, besides these, the least 64-bit integer, whose
    absolute value wraps around (when that integer is at most
    [epsilon]).  Rezeroing the result again changes nothing. *)
Theorem rezero_array_spec (a : pyobj) (epsilon : Q) :
  (forall k items, a = PySeq k items -> k <> ArrayK ->
                   extras.rezero_array a epsilon = Raise TypeError)
  /\ (forall k items, a = PyInts k items -> k <> ArrayK ->
                      extras.rezero_array a epsilon = Raise TypeError)
  /\ (is_sequence a = false -> extras.rezero_array a epsilon = Raise TypeError)
  /\ (forall d, extras.rezero_array a epsilon = Ok d ->
        (forall items, a = PySeq ArrayK items ->
           exists d0, np.asarray items = Ok d0 /\ rezeroed epsilon d0 d
                      /\ extras.rezero_array (PySeq ArrayK (map Some d)) epsilon
                         = Ok d)
        /\ (forall items, a = PyInts ArrayK items ->
              rezeroed_int64 epsilon
                (map (fun i => inject_Z (np.int64_val i)) items) d
              /\ np.rezero_as np.Int64 epsilon d = d)
        /\ (forall pt, a = PyPoint pt ->
              rezeroed epsilon (coords pt) d
              /\ extras.rezero_array (PySeq ArrayK (map Some d)) epsilon = Ok d)
        /\ (forall vec, a = PyVector vec ->
              (vdtype vec = np.Float64 -> rezeroed epsilon (vdata vec) d)
              /\ (vdtype vec = np.Int64 ->
                  rezeroed_int64 epsilon (vdata vec) d)
              /\ extras.rezero_array (PyVector (VectorM.with_data vec d))
                    epsilon = Ok d)).
Proof.
  split_and!.
  - intros k items -> Hk. by destruct k.
  - intros k items -> Hk. by destruct k.
  - by destruct a.
  - intros d Hd.
    assert (Hagain : forall d0, d = np.rezero epsilon d0 ->
              extras.rezero_array (PySeq ArrayK (map Some d)) epsilon = Ok d).
    { intros d0 ->. cbn. rewrite asarray_some. cbn.
      by rewrite rezero_idempotent. }
    destruct a as [| | |k items|pt|vec|k items]; try discriminate Hd.
    + destruct k; try discriminate Hd. cbn in Hd.
      destruct (np.asarray items) as [d0|e] eqn:E; [|discriminate].
      cbn in Hd. injection Hd as <-. split_and!; try done.
      intros items' [= <-]. exists d0. split_and!; eauto.
      apply rezero_rezeroed.
    + cbn in Hd. injection Hd as <-. split_and!; try done.
      intros pt' [= <-]. split; [apply rezero_rezeroed|eauto].
    + cbn in Hd. injection Hd as <-. split_and!; try done.
      intros vec' [= <-]. split_and!.
      * intros ->. apply rezero_rezeroed.
      * intros ->. apply rezero_int64_rezeroed.
      * cbn [extras.rezero_array VectorM.with_data vdtype vdata].
        by rewrite rezero_as_idempotent.
    + destruct k; try discriminate Hd. cbn [extras.rezero_array] in Hd.
      rewrite asarray_int_items in Hd. cbn [rbind] in Hd.
      injection Hd as <-. split_and!; try done.
      intros items' [= <-]. split.
      * apply rezero_int64_rezeroed.
      * apply rezero_as_idempotent.
Qed.

Lemma rezero_array_spec_witness :
  extras.rezero_array (PySeq ListK [Some 1; Some 0]) extras.default_epsilon
  = Raise TypeError
  /\ extras.rezero_array
       (PySeq ArrayK [Some 1; Some (1 # 10000000000000000); Some (- 2)])
       extras.default_epsilon
     = Ok [1; 0; - 2]
  /\ extras.rezero_array (PyInts ArrayK (least_int64 :: one_two_three))
       extras.default_epsilon
     = Ok [0; 1; 2; 3].
Proof.
  split_and!.
  - destruct (rezero_array_spec (PySeq ListK [Some 1; Some 0])
                extras.default_epsilon) as (Hk & _ & _).
    by apply (Hk ListK [Some 1; Some 0]).
  - reflexivity.
  - reflexivity.
Defined.

Section PointAliases.

Lemma alias_slot_len (pt : Point) (name : string) :
  wf_point pt ->
  alias_slot (length (coords pt) =? 2)%nat (length (coords pt) =? 3)%nat name
  = alias_slot (nd pt =? 2)%Z (nd pt =? 3)%Z name.
Proof.
  intros [Hn _]. rewrite Hn. f_equal.
  - destruct (Nat.eqb_spec (length (coords pt)) 2) as [-> | ]; [done|].
    symmetry. apply Z.eqb_neq. lia.
  - destruct (Nat.eqb_spec (length (coords pt)) 3) as [-> | ]; [done|].
    symmetry. apply Z.eqb_neq. lia.
Qed.

Lemma alias_slot_shape (n : nat) (name : string) (i : nat) :
  (n = 2 \/ n = 3)%nat -> alias_index name = Some i -> (i < n)%nat ->
  alias_slot (n =? 2)%nat (n =? 3)%nat name = Some i.
Proof.
  intros Hn Hi Hlt. apply alias_slot_intro; [done|].
  destruct Hn as [-> | ->]; [left|right]; done.
Qed.

Lemma alias_index_inj (name name' : string) (i : nat) :
  alias_index name = Some i -> alias_index name' = Some i -> name = name'.
Proof.
  unfold alias_index.
  destruct (String.eqb_spec name "x") as [-> | ];
    [|destruct (String.eqb_spec name "y") as [-> | ];
      [|destruct (String.eqb_spec name "z") as [-> | ]]]; try discriminate;
  intros [= <-];
  (destruct (String.eqb_spec name' "x") as [-> | ];
    [|destruct (String.eqb_spec name' "y") as [-> | ];
      [|destruct (String.eqb_spec name' "z") as [-> | ]]]); try discriminate;
  done.
Qed.

Lemma finish_zeros (m : nat) :
  PointM.finish (repeat 0 m) (Z.of_nat m)
  = Ok (mkPoint (repeat 0 m) (Z.of_nat m) ∅).
Proof.
  pose proof (finish_len (repeat 0 m)) as H. by rewrite repeat_length in H.
Qed.

End PointAliases.

(** X4. On a point of dimensionality 2 or 3 a named alias and its index
    are one and the same component: writing [x], [y] or [z] is the index
    write, the alias reads back the value written, the other aliases
    read what they read before, and [nd] stays the number of
    components. *)
Theorem point_alias_write_read (pt : Point) (name : string) (i : nat)
    (value : Q) :
  wf_point pt ->
  (length (coords pt) = 2 \/ length (coords pt) = 3)%nat ->
  alias_index name = Some i ->
  (i < length (coords pt))%nat ->
  exists pt',
    PointM.setattr pt name value = Ok pt'
    /\ np.setitem (coords pt) (Z.of_nat i) value = Ok (coords pt')
    /\ coords pt' = <[i := value]> (coords pt)
    /\ wf_point pt'
    /\ PointM.getattr pt' name = Ok value
    /\ (forall q, coords pt !! i = Some q -> PointM.getattr pt name = Ok q)
    /\ (forall name' j,
          alias_index name' = Some j -> j <> i ->
          PointM.getattr pt' name' = PointM.getattr pt name').
Proof.
  intros Hwf Hn Hi Hlt. pose proof Hwf as [Hnd Hd].
  pose proof (alias_slot_shape _ _ _ Hn Hi Hlt) as Hslot.
  exists (mkPoint (<[i := value]> (coords pt)) (nd pt) (pdict pt)).
  assert (Hset : PointM.setattr pt name value
                 = Ok (mkPoint (<[i := value]> (coords pt)) (nd pt) (pdict pt))).
  { unfold PointM.setattr. rewrite <- alias_slot_len, Hslot by done.
    by rewrite setitem_nat. }
  split_and!; try done.
  - cbn. by apply setitem_nat.
  - split; cbn; [by rewrite length_insert|done].
  - unfold PointM.getattr. cbn [pdict coords].
    rewrite Hd, lookup_empty, length_insert, Hslot.
    by rewrite list_lookup_insert_eq.
  - intros q Hq. unfold PointM.getattr. by rewrite Hd, lookup_empty, Hslot, Hq.
  - intros name' j Hj Hne. unfold PointM.getattr. cbn [pdict coords].
    rewrite length_insert.
    destruct (alias_slot _ _ name') as [j'|] eqn:Hs; [|done].
    apply alias_slot_inv in Hs as [Hj' _]. rewrite Hj in Hj'.
    injection Hj' as <-. by rewrite list_lookup_insert_ne.
Qed.

Lemma point_alias_write_read_witness :
  exists pt',
    PointM.setattr (mkPoint [1; 2; 3] 3 ∅) "y" 7 = Ok pt'
    /\ coords pt' = [1; 7; 3]
    /\ PointM.getattr pt' "y" = Ok 7.
Proof.
  destruct (point_alias_write_read (mkPoint [1; 2; 3] 3 ∅) "y" 1%nat 7)
    as (pt' & Hset & _ & Hc & _ & Hget & _); try done.
  - by right.
  - cbn. lia.
  - by exists pt'.
Defined.

(** X5. Where an alias stands for no component (a point whose [nd] is
    neither 2 nor 3, or [z] on a 2-D point) writing it leaves every
    component and [nd] as they are and only records an instance
    attribute, which is what a later read returns; before any such write
    the read is an [AttributeError]. *)
Theorem point_alias_without_component (pt : Point) (name : string) (i : nat)
    (value : Q) :
  alias_index name = Some i ->
  alias_slot (nd pt =? 2)%Z (nd pt =? 3)%Z name = None ->
  (exists pt',
      PointM.setattr pt name value = Ok pt'
      /\ coords pt' = coords pt /\ nd pt' = nd pt
      /\ PointM.getattr pt' name = Ok value)
  /\ (wf_point pt -> PointM.getattr pt name = Raise AttributeError).
Proof.
  intros Hi Hslot. split.
  - eexists. unfold PointM.setattr. rewrite Hslot. split; [reflexivity|].
    split_and!; try done.
    unfold PointM.getattr. cbn [pdict]. by rewrite lookup_insert_eq.
  - intros Hwf. pose proof Hwf as [_ Hd]. unfold PointM.getattr.
    by rewrite Hd, lookup_empty, alias_slot_len, Hslot.
Qed.

Lemma point_alias_without_component_witness :
  PointM.getattr (mkPoint [1; 2] 2 ∅) "z" = Raise AttributeError
  /\ exists pt',
       PointM.setattr (mkPoint [1; 2] 2 ∅) "z" 9 = Ok pt'
       /\ coords pt' = [1; 2] /\ PointM.getattr pt' "z" = Ok 9.
Proof.
  destruct (point_alias_without_component (mkPoint [1; 2] 2 ∅) "z" 2%nat 9)
    as [(pt' & Hset & Hc & _ & Hget) Hread]; try done.
  split; [by apply Hread|]. by exists pt'.
Defined.

(** X6. With a non-sequence argument and a numeric [nd] the constructor
    returns the zero point of [int(nd)] components, [nd] being truncated
    towards zero, and raises [ValueError] when that is negative. *)
Theorem point_new_dimension (p : pyobj) (q : Q) (copy : bool) :
  is_sequence p = false ->
  ((0 <= py_int q)%Z ->
   PointM.new p (PyNum q) copy
   = Ok (mkPoint (repeat 0 (Z.to_nat (py_int q))) (py_int q) ∅))
  /\ ((py_int q < 0)%Z -> PointM.new p (PyNum q) copy = Raise ValueError)
  /\ (0 <= q -> inject_Z (py_int q) <= q /\ q < inject_Z (py_int q + 1))
  /\ (q < 0 -> inject_Z (py_int q - 1) < q /\ q <= inject_Z (py_int q)).
Proof.
  intros Hp. split_and!.
  - intros Hq.
    assert (Hnew : PointM.new p (PyNum q) copy
                   = do p' <- np.zeros (py_int q); PointM.finish p' (py_int q))
      by by destruct p.
    rewrite Hnew. unfold np.zeros.
    destruct (Z.ltb_spec (py_int q) 0); [lia|]. cbn [rbind].
    remember (Z.to_nat (py_int q)) as m eqn:Hm.
    assert (py_int q = Z.of_nat m) as -> by lia.
    apply finish_zeros.
  - intros Hq.
    assert (Hnew : PointM.new p (PyNum q) copy
                   = do p' <- np.zeros (py_int q); PointM.finish p' (py_int q))
      by by destruct p.
    rewrite Hnew. unfold np.zeros.
    by destruct (Z.ltb_spec (py_int q) 0); [|lia].
  - intros Hq. unfold py_int.
    assert (Qle_bool 0 q = true) as -> by by apply Qle_bool_iff.
    split; [apply Qfloor_le|apply Qlt_floor].
  - intros Hq. unfold py_int.
    destruct (Qle_bool 0 q) eqn:E; [apply Qle_bool_iff in E; lra|].
    split; [|apply Qle_ceiling].
    replace (Qceiling q - 1)%Z with (Qceiling q + -1)%Z by lia.
    apply Qceiling_lt.
Qed.

Lemma point_new_dimension_witness :
  PointM.new PyNone (PyNum (5 # 2)) true = Ok (mkPoint [0; 0] 2 ∅)
  /\ PointM.new PyNone (PyNum (- 1)) true = Raise ValueError.
Proof.
  split.
  - by apply (point_new_dimension PyNone (5 # 2) true).
  - by apply (point_new_dimension PyNone (- 1) true).
Defined.

(** X7. Every point the constructor returns has [nd] equal to its number
    of components and no attribute shadowing an alias, and is a fixed
    point of construction: built again from itself, or from the list of
    its components, it is the same point. *)
Theorem point_new_invariant (p nd_arg : pyobj) (copy : bool) (pt : Point) :
  PointM.new p nd_arg copy = Ok pt ->
  wf_point pt
  /\ (forall nd' copy', PointM.new (PyPoint pt) nd' copy' = Ok pt)
  /\ (forall k nd' copy',
        PointM.new (PySeq k (map Some (coords pt))) nd' copy' = Ok pt).
Proof.
  intros Hnew. pose proof (point_new_wf _ _ _ _ Hnew) as Hwf.
  pose proof Hwf as [Hn Hd]. destruct pt as [c n d]. cbn in Hn, Hd. subst.
  split_and!; [done|..].
  - intros nd' copy'. cbn. by rewrite finish_len.
  - intros k nd' copy'. cbn [PointM.new coords]. rewrite of_sequence_spec.
    assert (Hno : has_none (map Some c) = false).
    { clear. induction c; [done|]. cbn. exact IHc. }
    assert (Hdz : default_zero (map Some c) = c).
    { unfold default_zero. rewrite map_map. cbn. apply map_id. }
    assert (Hsc : sequence_coords k (map Some c) = c).
    { unfold sequence_coords. rewrite Hno, Hdz. by destruct k. }
    by rewrite Hsc, length_map.
Qed.

Lemma point_new_invariant_witness :
  PointM.new (PyPoint (mkPoint [1; 0; 3] 3 ∅)) PyNone true
  = Ok (mkPoint [1; 0; 3] 3 ∅).
Proof.
  destruct (point_new_invariant (PySeq ListK [Some 1; None; Some 3]) PyNone true
              (mkPoint [1; 0; 3] 3 ∅) eq_refl) as (_ & Hagain & _).
  apply Hagain.
Defined.

Section VectorShapes.

Context `{RT : Runtime}.

Lemma sync_terminal_length (h h' : heap) (vec : Vector) (name : string)
    (value : Q) :
  VectorM.sync_terminal h vec name value = Ok h' -> length h' = length h.
Proof.
  unfold VectorM.sync_terminal.
  destruct (VectorM.deref h (_p0 vec)) as [pt0|]; [|by intros [= <-]].
  destruct (PointM.getattr pt0 name) as [x0|[]]; try discriminate;
    [|by intros [= <-]].
  destruct (_p vec) as [l|]; [|by intros [= <-]]. cbn [VectorM.deref].
  destruct (h !! l) as [pt|]; [|by intros [= <-]].
  destruct (PointM.setattr pt name (x0 + value)) as [pt'|[]]; try discriminate.
  - intros [= <-]. apply length_insert.
  - by intros [= <-].
Qed.

(** A write through an alias changes neither [nd], nor the element
    type, nor the number of components, nor the points the vector
    refers to. *)
Lemma setattr_shape (h h' : heap) (vec vec' : Vector) (name : string)
    (value : Q) (i : nat) :
  vector_slot vec name = Some i ->
  VectorM.setattr h vec name value = Ok (h', vec') ->
  vnd vec' = vnd vec /\ length (vdata vec') = length (vdata vec)
  /\ _p vec' = _p vec /\ _p0 vec' = _p0 vec /\ length h' = length h
  /\ vdtype vec' = vdtype vec.
Proof.
  unfold vector_slot, VectorM.setattr. intros ->.
  destruct (np.setitem (vdata vec) (Z.of_nat i) (VectorM.store vec value))
    as [d|e] eqn:Hs; [|discriminate]. cbn [rbind].
  destruct (VectorM.sync_terminal h vec name value) as [h1|e] eqn:Hh;
    [|discriminate]. cbn [rbind]. intros [= <- <-].
  destruct (setitem_data _ _ _ _ Hs) as (j & _ & ->).
  cbn. rewrite length_insert. split_and!; try done.
  by eapply sync_terminal_length.
Qed.

Lemma assign_names_shape (h h' : heap) (vec vec' : Vector)
    (names : list string) (values : list Q) :
  Forall (fun name => is_Some (vector_slot vec name)) names ->
  VectorM.assign_names h vec names values = Ok (h', vec') ->
  vnd vec' = vnd vec /\ length (vdata vec') = length (vdata vec)
  /\ _p vec' = _p vec /\ _p0 vec' = _p0 vec /\ length h' = length h
  /\ vdtype vec' = vdtype vec.
Proof.
  revert h vec values.
  induction names as [|name names IH]; intros h vec [|value values] Hn; cbn;
    try discriminate.
  - by intros [= <- <-].
  - destruct (VectorM.setattr h vec name value) as [[h1 vec1]|e] eqn:Hset;
      [|discriminate]. cbn.
    intros Hrest. inversion Hn as [|? ? [i Hi] Hn']; subst.
    destruct (setattr_shape _ _ _ _ _ _ _ Hi Hset)
      as (E1 & E2 & E3 & E4 & E5 & E6).
    assert (Hn1 : Forall (fun name => is_Some (vector_slot vec1 name)) names).
    { unfold vector_slot in *. by rewrite E1. }
    destruct (IH _ _ _ Hn1 Hrest) as (F1 & F2 & F3 & F4 & F5 & F6).
    split_and!; congruence.
Qed.

(** The branch of [__new__] for a [v] that is no sequence, unfolded. *)
Lemma new_points_inv (h : heap) (v nd_arg p p0 : pyobj) (copy : bool)
    (h' : heap) (vec : Vector) :
  is_sequence v = false ->
  VectorM.new h v nd_arg p p0 copy = Ok (h', vec) ->
  let n := match nd_arg with PyNum q => q | _ => 3 end in
  exists ptA ptB d,
    VectorM.point_arg p n = Ok ptA
    /\ VectorM.point_arg p0 n = Ok ptB
    /\ np.sub (coords ptA) (coords ptB) = Ok d
    /\ VectorM.init_aliases (h ++ [ptA; ptB])
         (mkVector d n (Some (length h)) (Some (S (length h))) ∅)
       = Ok (h', vec).
Proof.
  intros Hv Hnew n.
  assert (Hrun : (do pt <- VectorM.point_arg p n;
                  do pt0 <- VectorM.point_arg p0 n;
                  do d <- np.sub (coords pt) (coords pt0);
                  let '(h1, l) := VectorM.alloc h pt in
                  let '(h2, l0) := VectorM.alloc h1 pt0 in
                  VectorM.init_aliases h2 (mkVector d n (Some l) (Some l0) ∅))
                 = Ok (h', vec))
    by (destruct v; try discriminate Hv; exact Hnew).
  clear Hnew.
  destruct (VectorM.point_arg p n) as [ptA|e] eqn:HA; [|discriminate].
  cbn [rbind] in Hrun.
  destruct (VectorM.point_arg p0 n) as [ptB|e] eqn:HB; [|discriminate].
  cbn [rbind] in Hrun.
  destruct (np.sub (coords ptA) (coords ptB)) as [d|e] eqn:Hd; [|discriminate].
  cbn [rbind VectorM.alloc] in Hrun. rewrite length_app in Hrun.
  cbn [length] in Hrun.
  replace (length h + 1)%nat with (S (length h)) in Hrun by lia.
  rewrite <- app_assoc in Hrun. by exists ptA, ptB, d.
Qed.

Lemma init_aliases_shape (h h' : heap) (vec vec' : Vector) :
  VectorM.init_aliases h vec = Ok (h', vec') ->
  vnd vec' = vnd vec /\ length (vdata vec') = length (vdata vec)
  /\ _p vec' = _p vec /\ _p0 vec' = _p0 vec /\ length h' = length h
  /\ (vnd vec == 2 -> length (vdata vec) = 2%nat)
  /\ (vnd vec == 3 -> length (vdata vec) = 3%nat).
Proof.
  unfold VectorM.init_aliases.
  destruct (Qeq_bool (vnd vec) 2) eqn:E2; [|destruct (Qeq_bool (vnd vec) 3) eqn:E3].
  - intros Hrun. pose proof (assign_names_length _ _ _ _ _ Hrun) as Hl.
    assert (Hn : Forall (fun name => is_Some (vector_slot vec name)) ["x"; "y"]).
    { unfold vector_slot. rewrite E2. repeat constructor; by eexists. }
    destruct (assign_names_shape _ _ _ _ _ _ Hn Hrun) as (? & ? & ? & ? & ? & ?).
    apply Qeq_bool_iff in E2. split_and!; try done.
    intros E3. rewrite E2 in E3. discriminate E3.
  - intros Hrun. pose proof (assign_names_length _ _ _ _ _ Hrun) as Hl.
    assert (Hn : Forall (fun name => is_Some (vector_slot vec name))
                   ["x"; "y"; "z"]).
    { unfold vector_slot. rewrite E2, E3. repeat constructor; by eexists. }
    destruct (assign_names_shape _ _ _ _ _ _ Hn Hrun) as (? & ? & ? & ? & ? & ?).
    apply Qeq_bool_iff in E3. split_and!; try done.
    intros E2'. apply Qeq_bool_iff in E2'. congruence.
  - intros [= <- <-]. split_and!; try done.
    + intros E. apply Qeq_bool_iff in E. congruence.
    + intros E. apply Qeq_bool_iff in E. congruence.
Qed.

End VectorShapes.

(** X8. Whatever the constructor is given, a vector it returns with [nd]
    equal to 2 or 3 has exactly that many components; without a
    component sequence and without a numeric [nd] the vector has [nd = 3]
    and three components, so that points of any other size make the
    construction fail. *)
Theorem vector_new_dimension `{RT : Runtime} (h : heap) (v nd_arg p p0 : pyobj) (copy : bool)
    (h' : heap) (vec : Vector) :
  VectorM.new h v nd_arg p p0 copy = Ok (h', vec) ->
  (vnd vec == 2 \/ vnd vec == 3 ->
   vnd vec == inject_Z (Z.of_nat (length (vdata vec))))
  /\ (is_sequence v = false -> is_number nd_arg = false ->
      vnd vec = 3 /\ length (vdata vec) = 3%nat).
Proof.
  intros Hnew.
  assert (Helse : is_sequence v = false ->
            let n := match nd_arg with PyNum q => q | _ => 3 end in
            vnd vec = n /\ (n == 2 -> length (vdata vec) = 2%nat)
            /\ (n == 3 -> length (vdata vec) = 3%nat)).
  { intros Hv n.
    destruct (new_points_inv _ _ _ _ _ _ _ _ Hv Hnew)
      as (ptA & ptB & d & _ & _ & _ & Hinit).
    destruct (init_aliases_shape _ _ _ _ Hinit) as (Hn & Hl & _ & _ & _ & H2 & H3).
    cbn [vnd vdata] in *. rewrite Hl. by split_and!. }
  split.
  - destruct (is_sequence v) eqn:Hv.
    + destruct (sequence_items v) as [items|] eqn:Hitems.
      * destruct (new_sequence_inv _ _ _ _ _ _ _ _ _ Hitems Hnew)
          as (pt0 & d & pc & _ & Hd & _ & _ & Hdata & Hnd & _).
        intros _. rewrite Hnd, Hdata. by rewrite (asarray_length _ _ Hd).
      * destruct v; try discriminate Hv; try discriminate Hitems.
        cbn [VectorM.new] in Hnew. injection Hnew as <- <-.
        intros _. reflexivity.
    + destruct (Helse eq_refl) as (Hn & H2 & H3). rewrite Hn.
      intros [E|E]; rewrite E; [rewrite (H2 E)|rewrite (H3 E)]; reflexivity.
  - intros Hv Hnd. destruct (Helse Hv) as (Hn & _ & H3).
    assert (match nd_arg with PyNum q => q | _ => 3 end = 3) as Hn3
      by by destruct nd_arg.
    rewrite Hn3 in *. split; [done|]. by apply H3.
Qed.

Lemma vector_new_dimension_witness :
  exists h' vec,
    @VectorM.new sample_runtime [] PyNone PyNone
      (PySeq ListK [Some 4; Some 5; Some 6])
      (PySeq ListK [Some 1; Some 1; Some 1]) true = Ok (h', vec)
    /\ vnd vec = 3 /\ length (vdata vec) = 3%nat.
Proof.
  eexists _, _. split; [reflexivity|].
  eapply (@vector_new_dimension sample_runtime [] PyNone PyNone
            (PySeq ListK [Some 4; Some 5; Some 6])
            (PySeq ListK [Some 1; Some 1; Some 1]) true); reflexivity.
Defined.

Section VectorConstruction.

Context `{RT : Runtime}.

Lemma with_data_id (vec : Vector) : VectorM.with_data vec (vdata vec) = vec.
Proof. by destruct vec. Qed.

(** Writing to an alias of a [float64] vector the value the component
    already has changes the terminal point only up to equality of
    rationals, and nothing else. *)
Lemma setattr_own h vec pt pt0 (name : string) (value : Q) (i : nat) :
  vdtype vec = np.Float64 ->
  bound h vec pt pt0 ->
  displacement vec pt pt0 ->
  vector_slot vec name = Some i ->
  vdata vec !! i = Some value ->
  exists l pt',
    _p vec = Some l
    /\ VectorM.setattr h vec name value = Ok (<[l := pt']> h, vec)
    /\ bound (<[l := pt']> h) vec pt' pt0
    /\ displacement vec pt' pt0
    /\ Forall2 Qeq (coords pt') (coords pt).
Proof.
  intros Hdt Hb Hd Hslot Hval.
  destruct (setattr_alias _ _ _ _ _ value _ Hb Hslot) as (l & x0 & Hl & Hx0 & Hi & Hset).
  rewrite (store_float _ _ Hdt) in Hset.
  rewrite (list_insert_id _ _ _ Hval), with_data_id in Hset.
  exists l, (VectorM.with_coords pt (<[i := x0 + value]> (coords pt))).
  split_and!; try done.
  - apply bound_update_p; try done. by rewrite length_insert.
  - pose proof (displacement_alias _ _ _ i x0 value Hd Hx0) as Hd'.
    by rewrite (list_insert_id _ _ _ Hval), with_data_id in Hd'.
  - destruct Hb as (l1 & l0 & _ & _ & _ & _ & _ & _ & _ & Hlp & Hlp0 & _).
    cbn [VectorM.with_coords coords].
    apply Forall2_same_length_lookup. split; [by rewrite length_insert|].
    intros j a b Ha Hb'. destruct (decide (j = i)) as [->|Hne].
    + rewrite list_lookup_insert_eq in Ha by lia. injection Ha as <-.
      unfold displacement in Hd.
      destruct (proj1 (Forall2_same_length_lookup _ _ _) Hd) as [_ Hpt].
      assert (Hz : zip_with Qminus (coords pt) (coords pt0) !! i = Some (b - x0)).
      { apply lookup_zip_with_Some. by exists b, x0. }
      pose proof (Hpt _ _ _ Hval Hz) as E. rewrite E. ring.
    + rewrite list_lookup_insert_ne in Ha by done.
      rewrite Ha in Hb'. injection Hb' as <-. reflexivity.
Qed.

Lemma Forall2_Qeq_trans (a b c : list Q) :
  Forall2 Qeq a b -> Forall2 Qeq b c -> Forall2 Qeq a c.
Proof.
  intros Hab. revert c. induction Hab as [|x y a b Hxy _ IH]; intros c Hbc.
  - by inversion Hbc.
  - inversion Hbc as [|? z ? c' Hyz Hbc']; subst. constructor.
    + by rewrite Hxy.
    + by apply IH.
Qed.

(** On a [float64] vector that is bound and satisfies [v = p - p0] the
    alias assignments at the end of [__new__] succeed; they rewrite the
    terminal point with equal coordinates and change nothing else. *)
Lemma init_aliases_own h vec pt pt0 :
  vdtype vec = np.Float64 ->
  bound h vec pt pt0 ->
  displacement vec pt pt0 ->
  exists l pt',
    _p vec = Some l
    /\ VectorM.init_aliases h vec = Ok (<[l := pt']> h, vec)
    /\ bound (<[l := pt']> h) vec pt' pt0
    /\ displacement vec pt' pt0
    /\ Forall2 Qeq (coords pt') (coords pt).
Proof.
  intros Hdt Hb Hd.
  assert (Hshape : vnd vec == 2 \/ vnd vec == 3 ->
            vnd vec == inject_Z (Z.of_nat (length (vdata vec))))
    by by destruct Hb as (? & ? & ? & ? & ? & ? & ? & ? & ? & ? & ? & ?).
  unfold VectorM.init_aliases.
  destruct (Qeq_bool (vnd vec) 2) eqn:E2; [|destruct (Qeq_bool (vnd vec) 3) eqn:E3].
  - assert (Hlen : length (vdata vec) = 2%nat).
    { pose proof E2 as E. apply Qeq_bool_iff in E.
      by apply (inject_Z_two_three (vnd vec) _ (Hshape (or_introl E))). }
    destruct (vdata vec) as [|a [|b [|? ?]]] eqn:Hv; try discriminate Hlen.
    assert (Sx : vector_slot vec "x" = Some 0%nat)
      by (unfold vector_slot; by rewrite E2).
    assert (Sy : vector_slot vec "y" = Some 1%nat)
      by (unfold vector_slot; by rewrite E2).
    destruct (setattr_own _ _ _ _ "x" a 0 Hdt Hb Hd Sx) as (l & pt1 & Hl & Hs1 & Hb1 & Hd1 & Hq1);
      [by rewrite Hv|].
    destruct (setattr_own _ _ _ _ "y" b 1 Hdt Hb1 Hd1 Sy) as (l' & pt2 & Hl' & Hs2 & Hb2 & Hd2 & Hq2);
      [by rewrite Hv|].
    assert (l' = l) as -> by congruence.
    rewrite list_insert_insert_eq in Hs2, Hb2.
    exists l, pt2. cbn [VectorM.assign_names]. rewrite Hs1. cbn [rbind].
    rewrite Hs2. cbn [rbind]. split_and!; try done.
    by eapply Forall2_Qeq_trans.
  - assert (Hlen : length (vdata vec) = 3%nat).
    { pose proof E3 as E. apply Qeq_bool_iff in E.
      by apply (inject_Z_two_three (vnd vec) _ (Hshape (or_intror E))). }
    destruct (vdata vec) as [|a [|b [|c [|? ?]]]] eqn:Hv; try discriminate Hlen.
    assert (Sx : vector_slot vec "x" = Some 0%nat)
      by (unfold vector_slot; by rewrite E2, E3).
    assert (Sy : vector_slot vec "y" = Some 1%nat)
      by (unfold vector_slot; by rewrite E2, E3).
    assert (Sz : vector_slot vec "z" = Some 2%nat)
      by (unfold vector_slot; by rewrite E2, E3).
    destruct (setattr_own _ _ _ _ "x" a 0 Hdt Hb Hd Sx) as (l & pt1 & Hl & Hs1 & Hb1 & Hd1 & Hq1);
      [by rewrite Hv|].
    destruct (setattr_own _ _ _ _ "y" b 1 Hdt Hb1 Hd1 Sy) as (l' & pt2 & Hl' & Hs2 & Hb2 & Hd2 & Hq2);
      [by rewrite Hv|].
    assert (l' = l) as -> by congruence.
    rewrite list_insert_insert_eq in Hs2, Hb2.
    destruct (setattr_own _ _ _ _ "z" c 2 Hdt Hb2 Hd2 Sz) as (l' & pt3 & Hl'' & Hs3 & Hb3 & Hd3 & Hq3);
      [by rewrite Hv|].
    assert (l' = l) as -> by congruence.
    rewrite list_insert_insert_eq in Hs3, Hb3.
    exists l, pt3. cbn [VectorM.assign_names]. rewrite Hs1. cbn [rbind].
    rewrite Hs2. cbn [rbind]. rewrite Hs3. cbn [rbind]. split_and!; try done.
    eapply Forall2_Qeq_trans; [exact Hq3|]. by eapply Forall2_Qeq_trans.
  - destruct Hb as (l & l0 & Hl & Hl0 & Hne & Hpt & Hpt0 & Hrest).
    exists l, pt. rewrite (list_insert_id _ _ _ Hpt). split_and!; try done.
    by exists l, l0.
Qed.

End VectorConstruction.

(** X9. [Vector(p=..., p0=...)], with no component sequence: when the
    two points have the same number of coordinates, construction that
    succeeds places two new objects at the end of the store and touches
    no existing one; the origin is the point built from [p0], the
    terminal point has the coordinates of the point built from [p], the
    components are [p - p0], and the vector is bound to the two new
    points with [v = p - p0]. *)
Theorem vector_from_points `{RT : Runtime} (h : heap) (v nd_arg p p0 : pyobj) (copy : bool)
    (h' : heap) (vec : Vector) (ptA ptB : Point) :
  is_sequence v = false ->
  let n := match nd_arg with PyNum q => q | _ => 3 end in
  VectorM.new h v nd_arg p p0 copy = Ok (h', vec) ->
  VectorM.point_arg p n = Ok ptA ->
  VectorM.point_arg p0 n = Ok ptB ->
  length (coords ptA) = length (coords ptB) ->
  exists pt,
    _p vec = Some (length h) /\ _p0 vec = Some (S (length h))
    /\ length h' = S (S (length h))
    /\ (forall j, (j < length h)%nat -> h' !! j = h !! j)
    /\ vdata vec = zip_with Qminus (coords ptA) (coords ptB)
    /\ Forall2 Qeq (coords pt) (coords ptA)
    /\ bound h' vec pt ptB /\ displacement vec pt ptB.
Proof.
  intros Hv n Hnew HA HB Hlen.
  destruct (new_points_inv _ _ _ _ _ _ _ _ Hv Hnew)
    as (ptA' & ptB' & d & HA' & HB' & Hd & Hrun).
  fold n in HA', HB', Hrun. rewrite HA in HA'. rewrite HB in HB'.
  injection HA' as <-. injection HB' as <-.
  unfold np.sub in Hd. rewrite broadcast_same_length in Hd by done.
  injection Hd as <-.
  assert (HwA : wf_point ptA).
  { unfold VectorM.point_arg in HA. destruct p; by eapply point_new_wf. }
  assert (HwB : wf_point ptB).
  { unfold VectorM.point_arg in HB. destruct p0; by eapply point_new_wf. }
  set (vec0 := mkVector _ _ _ _ _) in Hrun.
  destruct (init_aliases_shape _ _ _ _ Hrun) as (_ & _ & _ & _ & _ & H2 & H3).
  assert (Hd0 : displacement vec0 ptA ptB) by by apply displacement_refl.
  assert (Hb0 : bound (h ++ [ptA; ptB]) vec0 ptA ptB).
  { exists (length h), (S (length h)). cbn [_p _p0 vdata vnd vec0].
    split_and!; try done.
    - rewrite lookup_app_r by lia. by rewrite Nat.sub_diag.
    - rewrite lookup_app_r by lia.
      by replace (S (length h) - length h)%nat with 1%nat by lia.
    - rewrite length_zip_with. lia.
    - rewrite length_zip_with. lia.
    - intros [E|E]; rewrite E.
      + cbn [vnd vdata vec0] in H2. by rewrite (H2 E).
      + cbn [vnd vdata vec0] in H3. by rewrite (H3 E). }
  assert (Hdt0 : vdtype vec0 = np.Float64) by reflexivity.
  destruct (init_aliases_own _ _ _ _ Hdt0 Hb0 Hd0) as (l & pt & Hl & Hinit & Hb & Hdis & Hq).
  rewrite Hinit in Hrun. injection Hrun as <- <-.
  cbn [_p vec0] in Hl. injection Hl as <-.
  exists pt. cbn [_p _p0 vdata vec0]. split_and!; try done.
  - rewrite length_insert, length_app. cbn [length]. lia.
  - intros j Hj. rewrite list_lookup_insert_ne by lia.
    by rewrite lookup_app_l by lia.
Qed.

Lemma vector_from_points_witness :
  exists h' vec pt,
    @VectorM.new sample_runtime [] PyNone PyNone
      (PySeq ListK [Some 4; Some 5; Some 6])
      (PySeq ListK [Some 1; Some 1; Some 1]) true = Ok (h', vec)
    /\ vdata vec = [4 - 1; 5 - 1; 6 - 1]
    /\ bound h' vec pt (mkPoint [1; 1; 1] 3 ∅)
    /\ displacement vec pt (mkPoint [1; 1; 1] 3 ∅).
Proof.
  eexists _, _.
  destruct (@vector_from_points sample_runtime [] PyNone PyNone
              (PySeq ListK [Some 4; Some 5; Some 6])
              (PySeq ListK [Some 1; Some 1; Some 1]) true _ _
              (mkPoint [4; 5; 6] 3 ∅) (mkPoint [1; 1; 1] 3 ∅)
              eq_refl eq_refl eq_refl eq_refl eq_refl)
    as (pt & _ & _ & _ & _ & Hv & _ & Hb & Hd).
  exists pt. split; [reflexivity|]. split; [exact Hv|]. split; [exact Hb|exact Hd].
Defined.

Section VectorRuns.

Context `{RT : Runtime}.

(** Which writes are tracked depends on [nd] only. *)
Lemma tracked_write_nd (vec vec' : Vector) (ms : list VectorM.mutation) :
  vnd vec' = vnd vec ->
  forallb (tracked_write vec') ms = forallb (tracked_write vec) ms.
Proof.
  intros E. induction ms as [|m ms IH]; [done|].
  cbn [forallb]. rewrite IH. f_equal.
  destruct m; unfold tracked_write, vector_slot; by rewrite ?E.
Qed.

(** A write through an alias and a replacement of [p] or of [p0] keep
    the two addresses, the number of components, the size of the store,
    [nd] and the element type. *)
Lemma mutate_shape h vec pt pt0 (m : VectorM.mutation) h' vec' :
  tracked_write vec m = true ->
  bound h vec pt pt0 ->
  VectorM.mutate h vec m = Ok (h', vec') ->
  _p vec' = _p vec /\ _p0 vec' = _p0 vec
  /\ length (vdata vec') = length (vdata vec) /\ length h' = length h
  /\ vnd vec' = vnd vec /\ vdtype vec' = vdtype vec.
Proof.
  intros Hm Hb Hrun. destruct m as [name value|i value|value|value];
    try discriminate Hm; cbn [VectorM.mutate] in Hrun.
  - cbn [tracked_write] in Hm.
    destruct (vector_slot vec name) as [i|] eqn:Hi; [|discriminate Hm].
    destruct (setattr_shape _ _ _ _ _ _ _ Hi Hrun) as (? & ? & ? & ? & ? & ?).
    done.
  - destruct (set_p_inv _ _ _ _ _ _ _ Hb Hrun) as (l & c & Hl & Hc & -> & ->).
    destruct Hb as (l1 & l0 & _ & _ & _ & _ & _ & _ & _ & Hlp & Hlp0 & _).
    cbn [VectorM.with_data vdata _p _p0 vnd vdtype].
    rewrite length_map, length_zip_with, length_insert.
    rewrite (assign_all_length _ _ _ Hc). split_and!; try done. lia.
  - destruct (set_p0_inv _ _ _ _ _ _ _ Hb Hrun) as (l & c & Hl & Hc & -> & ->).
    destruct Hb as (l1 & l0 & _ & _ & _ & _ & _ & _ & _ & Hlp & Hlp0 & _).
    cbn [VectorM.with_data vdata _p _p0 vnd vdtype].
    rewrite length_map, length_zip_with, length_insert.
    rewrite (assign_all_length _ _ _ Hc). split_and!; try done. lia.
Qed.

End VectorRuns.

(** X10. Along a run of writes to a [float64] vector, each of them a
    write through an alias that stands for a component or a replacement
    of [p] or of [p0], that succeeds: every intermediate state is
    reached, and in each of them the vector is bound to the same two
    objects, has the same number of components, the same [nd] and
    element type, the store has the same size and [v = p - p0] holds. *)
Theorem mutation_run_invariant `{RT : Runtime} (ms : list VectorM.mutation)
    (k : nat) h vec pt pt0 h' vec' :
  vdtype vec = np.Float64 ->
  forallb (tracked_write vec) ms = true ->
  bound h vec pt pt0 ->
  displacement vec pt pt0 ->
  mutate_all h vec ms = Ok (h', vec') ->
  exists hk veck ptk pt0k,
    mutate_all h vec (take k ms) = Ok (hk, veck)
    /\ mutate_all hk veck (drop k ms) = Ok (h', vec')
    /\ bound hk veck ptk pt0k /\ displacement veck ptk pt0k
    /\ _p veck = _p vec /\ _p0 veck = _p0 vec
    /\ length (vdata veck) = length (vdata vec)
    /\ length hk = length h
    /\ vnd veck = vnd vec /\ vdtype veck = np.Float64.
Proof.
  revert k h vec pt pt0.
  induction ms as [|m ms IH]; intros k h vec pt pt0 Hdt Hms Hb Hd Hrun.
  - rewrite take_nil, drop_nil. by exists h, vec, pt, pt0.
  - destruct k as [|k]; [by exists h, vec, pt, pt0|].
    cbn [forallb] in Hms. apply andb_prop in Hms as [Hm Hms].
    cbn [mutate_all take drop] in *.
    destruct (VectorM.mutate h vec m) as [[h1 vec1]|e] eqn:Hstep;
      [|discriminate]. cbn [rbind] in *.
    destruct (mutate_maintains _ _ _ _ _ _ _ Hm Hdt Hb Hd Hstep)
      as (pt1 & pt01 & Hb1 & Hd1).
    destruct (mutate_shape _ _ _ _ _ _ _ Hm Hb Hstep)
      as (E1 & E2 & E3 & E4 & E5 & E6).
    rewrite <- (tracked_write_nd _ _ ms E5) in Hms.
    assert (Hdt1 : vdtype vec1 = np.Float64) by congruence.
    destruct (IH k _ _ _ _ Hdt1 Hms Hb1 Hd1 Hrun)
      as (hk & veck & ptk & pt0k & Ht & Hdr & Hbk & Hdk
          & F1 & F2 & F3 & F4 & F5 & F6).
    exists hk, veck, ptk, pt0k. split_and!; try done; congruence.
Qed.

Lemma mutation_run_invariant_witness :
  exists hk veck ptk pt0k,
    @mutate_all sample_runtime sample_heap sample_vector
      (take 1 [VectorM.SetAttr "x" 7; VectorM.SetP0 [1; 1; 1]])
    = Ok (hk, veck)
    /\ bound hk veck ptk pt0k /\ displacement veck ptk pt0k.
Proof.
  destruct (@mutation_run_invariant sample_runtime
              [VectorM.SetAttr "x" 7; VectorM.SetP0 [1; 1; 1]] 1
              sample_heap sample_vector _ _ _ _
              eq_refl eq_refl sample_vector_bound sample_vector_displacement
              eq_refl)
    as (hk & veck & ptk & pt0k & Ht & _ & Hb & Hd & _).
  by exists hk, veck, ptk, pt0k.
Defined.

(** X11. [Vector(v)] for a [float64] vector [v], with [copy=True] as by
    default, allocates no point: the new vector has a buffer of its own
    with the components of [v] and refers to the very points [v] is
    bound to.  An alias write on the new vector therefore moves the
    terminal point of [v] as well, and unless the value written is the
    component [v] already has, [v = p - p0] no longer holds for [v]. *)
Theorem vector_copy_shares_points `{RT : Runtime} h vec pt pt0
    (nd_arg p p0 : pyobj) :
  vdtype vec = np.Float64 ->
  bound h vec pt pt0 ->
  displacement vec pt pt0 ->
  exists vec2,
    VectorM.new h (PyVector vec) nd_arg p p0 true = Ok (h, vec2)
    /\ vview vec2 = false /\ vdtype vec2 = np.Float64
    /\ vdata vec2 = vdata vec /\ _p vec2 = _p vec /\ _p0 vec2 = _p0 vec
    /\ bound h vec2 pt pt0 /\ displacement vec2 pt pt0
    /\ forall name i value c,
         vector_slot vec2 name = Some i ->
         vdata vec !! i = Some c ->
         exists h' vec2' pt',
           VectorM.setattr h vec2 name value = Ok (h', vec2')
           /\ vdata vec2' = <[i := value]> (vdata vec)
           /\ bound h' vec2' pt' pt0 /\ displacement vec2' pt' pt0
           /\ bound h' vec pt' pt0
           /\ (~ value == c -> ~ displacement vec pt' pt0).
Proof.
  intros Hdt Hb Hd.
  set (vec2 := mkVectorOf (vdtype vec) false (vdata vec)
                 (inject_Z (Z.of_nat (length (vdata vec))))
                 (_p vec) (_p0 vec) ∅).
  assert (Hdt2 : vdtype vec2 = np.Float64) by exact Hdt.
  assert (Hb2 : bound h vec2 pt pt0).
  { destruct Hb as (l & l0 & ? & ? & ? & ? & ? & ? & ? & ? & ? & ?).
    exists l, l0. by split_and!. }
  exists vec2. split_and!; try done.
  intros name i value c Hslot Hc.
  destruct (setattr_alias _ _ _ _ _ value _ Hb2 Hslot)
    as (l & x0 & Hl & Hx0 & Hi & Hset).
  rewrite (store_float _ _ Hdt2) in Hset.
  eexists _, _, _. split; [exact Hset|].
  split_and!.
  - reflexivity.
  - apply bound_with_data; [|by rewrite length_insert].
    apply bound_update_p; try done.
    rewrite length_insert. done.
  - by apply displacement_alias.
  - apply bound_update_p; try done. by rewrite length_insert.
  - intros Hne Hd'. apply Hne. unfold displacement in Hd'.
    destruct (proj1 (Forall2_same_length_lookup _ _ _) Hd') as [_ Hpt].
    destruct Hb as (l1 & l0 & _ & _ & _ & _ & _ & _ & _ & Hlp & Hlp0 & _).
    cbn [VectorM.with_coords coords] in Hpt.
    assert (Hz : zip_with Qminus (<[i := x0 + value]> (coords pt)) (coords pt0)
                 !! i = Some (x0 + value - x0)).
    { apply lookup_zip_with_Some. exists (x0 + value), x0. split_and!; try done.
      apply list_lookup_insert_eq. cbn [vdata vec2] in Hi. lia. }
    pose proof (Hpt _ _ _ Hc Hz) as E. rewrite E. ring.
Qed.

Lemma vector_copy_shares_points_witness :
  exists vec2 h' vec2' pt',
    @VectorM.new sample_runtime sample_heap (PyVector sample_vector)
      PyNone PyNone PyNone true
    = Ok (sample_heap, vec2)
    /\ @VectorM.setattr sample_runtime sample_heap vec2 "x" 7 = Ok (h', vec2')
    /\ bound h' sample_vector pt' (mkPoint [0; 0; 0] 3 ∅)
    /\ ~ displacement sample_vector pt' (mkPoint [0; 0; 0] 3 ∅).
Proof.
  destruct (@vector_copy_shares_points sample_runtime
              sample_heap sample_vector _ _ PyNone PyNone PyNone
              eq_refl sample_vector_bound sample_vector_displacement)
    as (vec2 & Hnew & _ & _ & _ & _ & _ & _ & _ & Hwrite).
  injection Hnew as <-.
  destruct (Hwrite "x" 0%nat 7 1 eq_refl eq_refl)
    as (h' & vec2' & pt' & Hset & _ & _ & _ & Hb & Hnd).
  eexists _, h', vec2', pt'. split; [reflexivity|]. split_and!; try done.
  apply Hnd. intros E. discriminate E.
Defined.

(** X12. [rezero_components] rewrites the components of the vector only:
    the store, and so both points, stay as they are, and when it snaps
    a nonzero component to zero [v = p - p0] no longer holds. *)
Theorem rezero_components_leaves_points h vec pt pt0 (epsilon : Q)
    (i : nat) (c : Q) :
  bound h vec pt pt0 ->
  displacement vec pt pt0 ->
  vdata vec !! i = Some c ->
  Qabs c <= epsilon ->
  ~ c == 0 ->
  bound h (VectorM.rezero_components vec epsilon) pt pt0
  /\ ~ displacement (VectorM.rezero_components vec epsilon) pt pt0.
Proof.
  intros Hb Hd Hc Heps Hnz. split.
  - apply bound_with_data; [done|]. apply length_map.
  - intros Hd'. apply Hnz.
    pose proof (rezero_as_lookup (vdtype vec) epsilon _ _ _ Hc) as Hc'.
    rewrite (snap_as_small _ _ _ Heps) in Hc'.
    unfold displacement in Hd, Hd'.
    destruct (proj1 (Forall2_same_length_lookup _ _ _) Hd) as [Hlen Hpt].
    destruct (proj1 (Forall2_same_length_lookup _ _ _) Hd') as [_ Hpt'].
    destruct (lookup_lt_is_Some_2 (zip_with Qminus (coords pt) (coords pt0)) i)
      as [z Hz]; [rewrite <- Hlen; by eapply lookup_lt_Some|].
    rewrite (Hpt _ _ _ Hc Hz).
    symmetry. exact (Hpt' _ _ _ Hc' Hz).
Qed.

Lemma rezero_components_leaves_points_witness :
  ~ displacement
      (VectorM.rezero_components
         (mkVector [1 # 2; 2; 3] 3 (Some 1%nat) (Some 0%nat) ∅) 1)
      (mkPoint [1 # 2; 2; 3] 3 ∅) (mkPoint [0; 0; 0] 3 ∅).
Proof.
  refine (proj2 (rezero_components_leaves_points
            [mkPoint [0; 0; 0] 3 ∅; mkPoint [1 # 2; 2; 3] 3 ∅]
            (mkVector [1 # 2; 2; 3] 3 (Some 1%nat) (Some 0%nat) ∅)
            (mkPoint [1 # 2; 2; 3] 3 ∅) (mkPoint [0; 0; 0] 3 ∅)
            1 0%nat (1 # 2) _ _ eq_refl _ _)).
  - exists 1%nat, 0%nat. by split_and!.
  - apply displacement_refl. reflexivity.
  - intros E. discriminate E.
  - intros E. discriminate E.
Defined.

Section VectorSetters.

Context `{RT : Runtime}.

Lemma assign_all_cases (a value : list Q) :
  (length value <> length a -> length value <> 1%nat ->
   np.assign_all a value = Raise ValueError)
  /\ (forall q, np.assign_all a [q] = Ok (repeat q (length a))).
Proof.
  unfold np.assign_all. split.
  - intros Hne H1. destruct (Nat.eqb_spec (length value) (length a)); [done|].
    by destruct value as [|? [|? ?]].
  - intros q. destruct (Nat.eqb_spec (length [q]) (length a)) as [E|E]; [|done].
    cbn in E. by rewrite <- E.
Qed.

(** The setter of [p] on a bound vector, in closed form. *)
Lemma set_p_eq h vec pt pt0 (value : list Q) :
  bound h vec pt pt0 ->
  exists l,
    _p vec = Some l
    /\ VectorM.set_p h vec value
       = match np.assign_all (coords pt) value with
         | Ok c => Ok (<[l := VectorM.with_coords pt c]> h,
                       VectorM.with_data vec
                         (map (VectorM.store vec)
                              (zip_with Qminus c (coords pt0))))
         | Raise e => Raise e
         end.
Proof.
  intros (l & l0 & Hp & Hp0 & Hne & Hl & Hl0 & Hw & Hw0 & Hlen & Hlen0 & Hnd).
  exists l. split; [done|].
  unfold VectorM.set_p. rewrite Hp, Hp0. cbn [VectorM.deref]. rewrite Hl.
  destruct (np.assign_all (coords pt) value) as [c|e] eqn:Hc; [|done].
  cbn [rbind]. pose proof (assign_all_length _ _ _ Hc) as Hclen.
  rewrite list_lookup_insert_eq by (by eapply lookup_lt_Some).
  rewrite list_lookup_insert_ne, Hl0 by done. cbn [coords VectorM.with_coords].
  unfold np.sub. rewrite broadcast_same_length by lia. cbn [rbind].
  unfold VectorM.assign_data.
  rewrite assign_all_same_length
    by (rewrite length_map, length_zip_with; lia).
  done.
Qed.

Lemma set_p0_eq h vec pt pt0 (value : list Q) :
  bound h vec pt pt0 ->
  exists l0,
    _p0 vec = Some l0
    /\ VectorM.set_p0 h vec value
       = match np.assign_all (coords pt0) value with
         | Ok c => Ok (<[l0 := VectorM.with_coords pt0 c]> h,
                       VectorM.with_data vec
                         (map (VectorM.store vec)
                              (zip_with Qminus (coords pt) c)))
         | Raise e => Raise e
         end.
Proof.
  intros (l & l0 & Hp & Hp0 & Hne & Hl & Hl0 & Hw & Hw0 & Hlen & Hlen0 & Hnd).
  exists l0. split; [done|].
  unfold VectorM.set_p0. rewrite Hp, Hp0. cbn [VectorM.deref]. rewrite Hl0.
  destruct (np.assign_all (coords pt0) value) as [c|e] eqn:Hc; [|done].
  cbn [rbind]. pose proof (assign_all_length _ _ _ Hc) as Hclen.
  rewrite list_lookup_insert_eq by (by eapply lookup_lt_Some).
  rewrite list_lookup_insert_ne, Hl by done. cbn [coords VectorM.with_coords].
  unfold np.sub. rewrite broadcast_same_length by lia. cbn [rbind].
  unfold VectorM.assign_data.
  rewrite assign_all_same_length
    by (rewrite length_map, length_zip_with; lia).
  done.
Qed.

End VectorSetters.

(** X13. The setters of [p] and [p0] on a bound vector of [n]
    components: a value whose length is neither [n] nor 1 is a
    [ValueError]; a value of length 1 is broadcast, so that all [n]
    coordinates of the point become that number, and the components are
    recomputed from it and stored with the element type of the vector:
    as they are in a [float64] vector, truncated in an [int64] one. *)
Theorem setter_value_shape `{RT : Runtime} h vec pt pt0 (value : list Q) :
  bound h vec pt pt0 ->
  let n := length (vdata vec) in
  (length value <> n -> length value <> 1%nat ->
   VectorM.set_p h vec value = Raise ValueError
   /\ VectorM.set_p0 h vec value = Raise ValueError)
  /\ (forall q, exists l l0,
        _p vec = Some l /\ _p0 vec = Some l0
        /\ VectorM.set_p h vec [q]
           = Ok (<[l := VectorM.with_coords pt (repeat q n)]> h,
                 VectorM.with_data vec
                   (map (VectorM.store vec)
                        (zip_with Qminus (repeat q n) (coords pt0))))
        /\ VectorM.set_p0 h vec [q]
           = Ok (<[l0 := VectorM.with_coords pt0 (repeat q n)]> h,
                 VectorM.with_data vec
                   (map (VectorM.store vec)
                        (zip_with Qminus (coords pt) (repeat q n)))))
  /\ (vdtype vec = np.Float64 ->
      forall d, map (VectorM.store vec) d = d)
  /\ (vdtype vec = np.Int64 ->
      forall c, np.in_int64 (np.trunc c) = true ->
                VectorM.store vec c = inject_Z (np.trunc c)).
Proof.
  intros Hb n.
  pose proof Hb as (l1 & l2 & _ & _ & _ & _ & _ & _ & _ & Hlp & Hlp0 & _).
  fold n in Hlp, Hlp0. split_and!.
  - intros Hne H1.
    destruct (set_p_eq _ _ _ _ value Hb) as (l & _ & ->).
    destruct (set_p0_eq _ _ _ _ value Hb) as (l0 & _ & ->).
    assert (length value <> length (coords pt)) as Hn1 by lia.
    assert (length value <> length (coords pt0)) as Hn0 by lia.
    rewrite (proj1 (assign_all_cases (coords pt) value) Hn1 H1).
    by rewrite (proj1 (assign_all_cases (coords pt0) value) Hn0 H1).
  - intros q.
    destruct (set_p_eq _ _ _ _ [q] Hb) as (l & Hl & ->).
    destruct (set_p0_eq _ _ _ _ [q] Hb) as (l0 & Hl0 & ->).
    destruct (assign_all_cases (coords pt) [q]) as [_ ->].
    destruct (assign_all_cases (coords pt0) [q]) as [_ ->].
    rewrite Hlp, Hlp0. by exists l, l0.
  - intros Hdt d. by apply map_store_float.
  - intros Hdt c Hc. unfold VectorM.store, np.cast. by rewrite Hdt, Hc.
Qed.

Lemma setter_value_shape_witness :
  @VectorM.set_p sample_runtime sample_heap sample_vector [1; 2]
  = Raise ValueError
  /\ @VectorM.set_p0 sample_runtime sample_heap sample_vector [1; 2]
     = Raise ValueError.
Proof.
  refine (proj1 (@setter_value_shape sample_runtime
                   sample_heap sample_vector _ _ [1; 2]
                   sample_vector_bound) _ _); cbn; lia.
Defined.



(** * Further properties of the generator *)

Section WraparoundRounds.

Lemma inject_Z_S (k : nat) :
  inject_Z (Z.of_nat (S k)) == inject_Z (Z.of_nat k) + 1.
Proof.
  rewrite Nat2Z.inj_succ. unfold Z.succ. rewrite inject_Z_plus. reflexivity.
Qed.

Lemma wrap_continue (fuel : nat) (T z : Q) :
  T - SWNT.eps < z ->
  SWNT.wrap fuel T z
  = match fuel with O => None | S fuel' => SWNT.wrap fuel' T (z - T) end.
Proof.
  intros Hz. destruct fuel; cbn [SWNT.wrap];
    destruct (Qle_bool z (T - SWNT.eps)) eqn:E; try done;
    apply Qle_bool_iff in E; lra.
Qed.

Lemma wrap_stop (fuel : nat) (T z : Q) :
  z <= T - SWNT.eps -> SWNT.wrap fuel T z = Some z.
Proof.
  intros Hz. apply Qle_bool_iff in Hz.
  destruct fuel; cbn [SWNT.wrap]; by rewrite Hz.
Qed.

(** With [T <= 0] a loop that is entered never ends. *)
Lemma wrap_diverges (fuel : nat) (T z : Q) :
  T <= 0 -> T - SWNT.eps < z -> SWNT.wrap fuel T z = None.
Proof.
  intros HT. revert z. induction fuel as [|fuel IH]; intros z Hz;
    rewrite wrap_continue by done; [done|].
  apply IH. lra.
Qed.

End WraparoundRounds.

(** X15. The wraparound subtracts whole periods: a result [z'] is
    [z - k T], where [k] is the number of rounds of the loop, that is
    the least number of periods that brings the coordinate down to
    [T - eps] or below; and that many rounds of fuel are enough. *)
Theorem wrap_periods (fuel : nat) (T z z' : Q) :
  SWNT.wrap fuel T z = Some z' ->
  exists k : nat,
    (k <= fuel)%nat
    /\ z' == z - inject_Z (Z.of_nat k) * T
    /\ z' <= T - SWNT.eps
    /\ (forall j : nat, (j < k)%nat ->
          T - SWNT.eps < z - inject_Z (Z.of_nat j) * T)
    /\ SWNT.wrap k T z = Some z'.
Proof.
  revert z. induction fuel as [|fuel IH]; intros z Hw.
  - destruct (Qlt_le_dec (T - SWNT.eps) z) as [Hz|Hz].
    + by rewrite wrap_continue in Hw.
    + rewrite wrap_stop in Hw by done. injection Hw as <-.
      exists 0%nat.
      split_and!; [lia|cbn; ring|done|intros j Hj; lia|by apply wrap_stop].
  - destruct (Qlt_le_dec (T - SWNT.eps) z) as [Hz|Hz].
    + rewrite wrap_continue in Hw by done.
      destruct (IH _ Hw) as (k & Hk & Hz' & Hle & Hmin & Hrun).
      exists (S k).
      split_and!; [lia| |done| |by rewrite wrap_continue].
      * rewrite Hz', inject_Z_S. ring.
      * intros [|j] Hj.
        -- change (inject_Z (Z.of_nat 0)) with 0. lra.
        -- assert (Hj' : (j < k)%nat) by lia.
           pose proof (Hmin j Hj') as Hlt. rewrite inject_Z_S. lra.
    + rewrite wrap_stop in Hw by done. injection Hw as <-.
      exists 0%nat.
      split_and!; [lia|cbn; ring|done|intros j Hj; lia|by apply wrap_stop].
Qed.

Lemma wrap_periods_witness :
  exists k : nat,
    (k <= 5)%nat /\ (-500 # 100000) == (25 # 1000) - inject_Z (Z.of_nat k) * (3 # 100).
Proof.
  destruct (wrap_periods 5 (3 # 100) (25 # 1000) (-500 # 100000) eq_refl)
    as (k & Hk & Hz & _).
  by exists k.
Defined.

(** X16. When [T <= 0] and the first basis atom's raw axial coordinate
    [M T / N] lies above [T - eps], the first wraparound loop never
    ends: with at least one basis index, unit-cell generation does not
    finish, whatever the fuel.  [T = 0] is such a case. *)
Theorem unit_cell_never_finishes `{np.Trig} `{Collaborators}
    (g : SWNT.SWNTGenerator) (fuel : nat) :
  SWNT.T g <= 0 ->
  (1 <= SWNT.N g)%Z ->
  SWNT.T g - SWNT.eps
    < inject_Z (SWNT.M g) * SWNT.T g / inject_Z (SWNT.N g) ->
  SWNT.generate_unit_cell fuel g = None
  /\ SWNTGenerator_init fuel g true = None.
Proof.
  intros HT HN Hraw.
  assert (Hg : SWNT.generate_unit_cell fuel g = None).
  { unfold SWNT.generate_unit_cell. cbn zeta.
    assert (Hx : exists l, xrange 1 (SWNT.N g + 1) = 1%Z :: l).
    { unfold xrange.
      destruct (Z.to_nat (SWNT.N g + 1 - 1)) as [|k] eqn:E; [lia|].
      cbn [seq map]. by eexists. }
    destruct Hx as [l ->]. rewrite loop_cons.
    unfold SWNT.basis_atoms at 1. cbn zeta.
    rewrite (wrap_diverges fuel (SWNT.T g)
               (inject_Z 1
                * (inject_Z (SWNT.M g) * SWNT.T g / inject_Z (SWNT.N g)))).
    - cbn [mbind option_bind]. by rewrite loop_None.
    - done.
    - change (inject_Z 1) with 1. lra. }
  split; [done|]. unfold SWNTGenerator_init. by rewrite Hg.
Qed.

Lemma unit_cell_never_finishes_witness :
  @SWNT.generate_unit_cell sample_trig sample_collaborators 1000
    (zigzag_1_0 0 0) = None.
Proof.
  refine (proj1 (@unit_cell_never_finishes sample_trig sample_collaborators
                   (zigzag_1_0 0 0) 1000 _ _ _)).
  - vm_compute. discriminate.
  - vm_compute. discriminate.
  - reflexivity.
Defined.

Section StructureData.

Context `{np.Trig} `{Collaborators}.

(** The atoms [generate_structure_data] stores, replica by replica. *)
Lemma structure_atoms_blocks (g : SWNT.SWNTGenerator) :
  SWNT.structure_atoms (SWNT.generate_structure_data g)
  = flat_map
      (fun nz => map (fun a => Atom_translate a 0 0 (inject_Z nz * SWNT.T g))
                     (SWNT.unit_cell g))
      (xrange 0 (np.ceil (SWNT.nz g))).
Proof.
  unfold SWNT.generate_structure_data.
  cbn [SWNT.unit_cell SWNT.structure_atoms SWNT.set_structure_atoms fst snd].
  by rewrite (append_blocks
                (fun nz a => Atom_translate a 0 0 (inject_Z nz * SWNT.T g))).
Qed.

Lemma xrange_In (b c : Z) :
  In c (xrange 0 b) -> exists j : nat, c = Z.of_nat j /\ (j < Z.to_nat b)%nat.
Proof.
  unfold xrange. intros Hin. apply in_map_iff in Hin as (j & <- & Hj).
  apply in_seq in Hj. exists j. split; lia.
Qed.

Lemma basis_pair_axial (fuel : nat) (g : SWNT.SWNTGenerator) (p : Atom * Atom) :
  SWNT.eps <= SWNT.T g ->
  is_basis_pair fuel g p ->
  z p.1 <= SWNT.T g - SWNT.eps /\ z p.2 <= SWNT.T g - SWNT.eps.
Proof.
  intros HT (_ & _ & (r1 & z1 & Hw1 & Hz1) & (r2 & z2 & Hw2 & Hz2)).
  apply wrap_le in Hw1, Hw2. rewrite Hz1, Hz2. unfold np.snap.
  split.
  - destruct (Qle_bool (Qabs z1) point_tolerance); lra.
  - destruct (Qle_bool (Qabs z2) point_tolerance); lra.
Qed.

End StructureData.

(** X17. [SWNTGenerator(autogen=True)] with [T >= eps]: construction
    finishes; the unit cell has [2 N] atoms and the structure
    [2 N ceil(nz)]; every atom of the structure has
    [z <= ceil(nz) T - eps]; no call is made on the export
    collaborators; and the result does not depend on the fuel. *)
Theorem autogen_structure `{np.Trig} `{Collaborators}
    (g : SWNT.SWNTGenerator) :
  SWNT.eps <= SWNT.T g ->
  let k := Z.to_nat (np.ceil (SWNT.nz g)) in
  exists fuel g',
    SWNTGenerator_init fuel g true = Some g'
    /\ length (SWNT.unit_cell g') = (2 * Z.to_nat (SWNT.N g))%nat
    /\ length (SWNT.structure_atoms g') = (2 * Z.to_nat (SWNT.N g) * k)%nat
    /\ Forall (fun a => z a <= inject_Z (Z.of_nat k) * SWNT.T g - SWNT.eps)
              (SWNT.structure_atoms g')
    /\ SWNT.calls g' = SWNT.calls g
    /\ (forall fuel' g'',
          SWNTGenerator_init fuel' g true = Some g'' -> g'' = g').
Proof.
  intros HT k.
  assert (HT0 : 0 < SWNT.T g) by (unfold SWNT.eps in HT; lra).
  destruct (generate_unit_cell_enough g HT0) as (fuel & g1 & Hg).
  exists fuel, (SWNT.generate_structure_data g1).
  unfold SWNTGenerator_init. rewrite Hg. cbn [mbind option_bind].
  destruct (generate_unit_cell_inv _ _ _ Hg) as (ps & Hg1 & Hlen & Hps).
  assert (Huc : SWNT.unit_cell g1 = pair_atoms ps) by by rewrite Hg1.
  assert (HT1 : SWNT.T g1 = SWNT.T g) by by rewrite Hg1.
  assert (Hnz : SWNT.nz g1 = SWNT.nz g) by by rewrite Hg1.
  assert (Hxl : length (xrange 0 (np.ceil (SWNT.nz g))) = k).
  { rewrite xrange_length. unfold k. f_equal. lia. }
  split_and!.
  - done.
  - cbn [SWNT.generate_structure_data SWNT.unit_cell SWNT.set_structure_atoms].
    by rewrite Huc, pair_atoms_length, Hlen.
  - rewrite structure_atoms_blocks, blocks_length, Huc, pair_atoms_length.
    by rewrite Hnz, Hxl, Hlen.
  - rewrite structure_atoms_blocks, Huc, HT1, Hnz.
    apply List.Forall_forall. intros a Ha.
    apply in_flat_map in Ha as (c & Hc & Ha).
    apply in_map_iff in Ha as (a0 & <- & Ha0).
    apply xrange_In in Hc as (j & -> & Hj). fold k in Hj.
    assert (Hz0 : z a0 <= SWNT.T g - SWNT.eps).
    { assert (Hall : Forall (fun a => z a <= SWNT.T g - SWNT.eps)
                            (pair_atoms ps)).
      { apply pair_atoms_Forall. eapply Forall_impl; [exact Hps|].
        intros p Hp. by eapply basis_pair_axial. }
      by apply (proj1 (List.Forall_forall _ _) Hall). }
    cbn [z Atom_translate].
    assert (Hjk : inject_Z (Z.of_nat j) + 1 <= inject_Z (Z.of_nat k)).
    { rewrite <- inject_Z_S. rewrite <- Zle_Qle. lia. }
    assert (Hmul : (inject_Z (Z.of_nat j) + 1) * SWNT.T g
                   <= inject_Z (Z.of_nat k) * SWNT.T g).
    { apply Qmult_le_compat_r; [done|lra]. }
    lra.
  - by rewrite Hg1.
  - intros fuel' g'' Hinit.
    destruct (SWNT.generate_unit_cell fuel' g) as [g2|] eqn:Hg2; [|done].
    cbn [mbind option_bind] in Hinit. injection Hinit as <-.
    by rewrite (generate_unit_cell_deterministic _ _ _ _ _ Hg2 Hg).
Qed.

Lemma autogen_structure_witness :
  exists fuel g',
    @SWNTGenerator_init sample_trig sample_collaborators fuel
      zigzag_default true = Some g'
    /\ length (SWNT.structure_atoms g') = 4%nat.
Proof.
  destruct (@autogen_structure sample_trig sample_collaborators zigzag_default)
    as (fuel & g' & Hg & _ & Hlen & _).
  - vm_compute. discriminate.
  - exists fuel, g'. split; [exact Hg|exact Hlen].
Defined.

(** X18. Nothing to generate: with [nz <= 0] the loop over the unit
    cells is not entered, so [generate_structure_data] stores an empty
    structure whatever the unit cell holds; the constructor with
    [autogen=True], when it finishes, then leaves a generator with
    [2 N] atoms in the unit cell and none in the structure. *)
Theorem generation_of_nothing `{np.Trig} `{Collaborators}
    (g : SWNT.SWNTGenerator) :
  SWNT.nz g <= 0 ->
  SWNT.structure_atoms (SWNT.generate_structure_data g) = []
  /\ forall fuel g',
       SWNTGenerator_init fuel g true = Some g' ->
       SWNT.structure_atoms g' = []
       /\ length (SWNT.unit_cell g') = (2 * Z.to_nat (SWNT.N g))%nat.
Proof.
  intros Hnz.
  assert (Hempty : forall g0, SWNT.nz g0 <= 0 ->
            SWNT.structure_atoms (SWNT.generate_structure_data g0) = []).
  { intros g0 Hg0. rewrite structure_atoms_blocks.
    assert (xrange 0 (np.ceil (SWNT.nz g0)) = []) as ->; [|done].
    unfold xrange, np.ceil.
    pose proof (Qceiling_resp_le _ _ Hg0) as Hc.
    change (Qceiling 0) with 0%Z in Hc.
    by replace (Z.to_nat (Qceiling (SWNT.nz g0) - 0)) with 0%nat by lia. }
  split; [by apply Hempty|].
  intros fuel g' Hinit. unfold SWNTGenerator_init in Hinit.
  destruct (SWNT.generate_unit_cell fuel g) as [g1|] eqn:Hg; [|done].
  cbn [mbind option_bind] in Hinit. injection Hinit as <-.
  destruct (generate_unit_cell_inv _ _ _ Hg) as (ps & Hg1 & Hlen & Hps).
  assert (Huc : SWNT.unit_cell g1 = pair_atoms ps) by by rewrite Hg1.
  assert (Hnz1 : SWNT.nz g1 = SWNT.nz g) by by rewrite Hg1.
  split.
  - apply Hempty. by rewrite Hnz1.
  - cbn [SWNT.generate_structure_data SWNT.unit_cell SWNT.set_structure_atoms].
    by rewrite Huc, pair_atoms_length, Hlen.
Qed.

Lemma generation_of_nothing_witness :
  SWNT.structure_atoms
    (SWNT.generate_structure_data
       (SWNT.mkGenerator 1 0 (-1) "C" "C" 1 1 3 2 1 None false true
          [mkAtom "C" 1 0 0] [] None None [] eq_refl))
  = [].
Proof.
  refine (proj1 (@generation_of_nothing sample_trig sample_collaborators
                   _ _)).
  vm_compute. discriminate.
Defined.

Section Regeneration.

Context `{np.Trig} `{Collaborators}.

Lemma generate_unit_cell_forgets (fuel : nat) (g : SWNT.SWNTGenerator)
    (atoms : list Atom) :
  SWNT.generate_unit_cell fuel (SWNT.set_unit_cell g atoms)
  = SWNT.generate_unit_cell fuel g.
Proof. reflexivity. Qed.

(** Unit-cell generation leaves the structure atoms where they are. *)
Lemma generate_unit_cell_frame (fuel : nat) (g : SWNT.SWNTGenerator)
    (atoms : list Atom) :
  SWNT.generate_unit_cell fuel (SWNT.set_structure_atoms g atoms)
  = g2 ← SWNT.generate_unit_cell fuel g;
    Some (SWNT.set_structure_atoms g2 atoms).
Proof.
  destruct g. unfold SWNT.generate_unit_cell, SWNT.loop, SWNT.basis_atoms.
  cbn [SWNT.set_structure_atoms SWNT.set_unit_cell SWNT.n SWNT.m SWNT.nz
       SWNT.element1 SWNT.element2 SWNT.bond SWNT.M SWNT.T SWNT.N SWNT.rt
       SWNT._L0 SWNT._fix_Lz SWNT._assume_integer_unit_cells SWNT.unit_cell
       SWNT.structure_atoms SWNT._fname SWNT._fpath SWNT.calls].
  by destruct (fold_left _ _ _).
Qed.

End Regeneration.

(** X19. Generation replaces, it never appends: what a generator holds
    as unit cell or structure before a call has no part in the result,
    so that generating again on the result of the constructor gives the
    same generator, with no atom added. *)
Theorem regeneration_replaces `{np.Trig} `{Collaborators}
    (g : SWNT.SWNTGenerator) (fuel : nat) (atoms : list Atom) :
  SWNT.generate_unit_cell fuel (SWNT.set_unit_cell g atoms)
  = SWNT.generate_unit_cell fuel g
  /\ SWNT.generate_structure_data (SWNT.set_structure_atoms g atoms)
     = SWNT.generate_structure_data g
  /\ forall g',
       SWNTGenerator_init fuel g true = Some g' ->
       SWNTGenerator_init fuel g' true = Some g'.
Proof.
  split_and!; try reflexivity.
  intros g'. unfold SWNTGenerator_init.
  destruct (SWNT.generate_unit_cell fuel g) as [g1|] eqn:Hg; [|done].
  cbn [mbind option_bind]. intros [= <-].
  destruct (generate_unit_cell_inv _ _ _ Hg) as (ps & -> & _ & _).
  set (g1 := SWNT.set_unit_cell g (pair_atoms ps)) in *.
  change (SWNT.generate_unit_cell fuel (SWNT.generate_structure_data g1))
    with (SWNT.generate_unit_cell fuel
            (SWNT.set_structure_atoms g1
               (SWNT.structure_atoms (SWNT.generate_structure_data g1)))).
  rewrite generate_unit_cell_frame.
  rewrite (generate_unit_cell_forgets fuel g (pair_atoms ps)
           : SWNT.generate_unit_cell fuel g1 = _).
  rewrite Hg. reflexivity.
Qed.

Lemma regeneration_replaces_witness :
  exists g',
    @SWNTGenerator_init sample_trig sample_collaborators 5 zigzag_default true
    = Some g'
    /\ @SWNTGenerator_init sample_trig sample_collaborators 5 g' true = Some g'.
Proof.
  eexists. split; [vm_compute; reflexivity|].
  apply (proj2 (proj2 (@regeneration_replaces sample_trig sample_collaborators
                         zigzag_default 5 []))).
  vm_compute. reflexivity.
Defined.

(** * Further properties of the export *)

Section ExportNames.

Lemma substring_all (t : string) : String.substring 0 (String.length t) t = t.
Proof.
  induction t as [|c t IH]; [done|].
  change (String c (String.substring 0 (String.length t) t) = String c t).
  by f_equal.
Qed.

Lemma substring_append (s t : string) :
  String.substring (String.length s) (String.length t) (s ++ t)%string = t.
Proof.
  induction s as [|c s IH]; [apply substring_all|exact IH].
Qed.

Lemma string_length_append (s t : string) :
  String.length (s ++ t)%string = (String.length s + String.length t)%nat.
Proof.
  induction s as [|c s IH]; [done|].
  change (S (String.length (s ++ t)%string)
          = S (String.length s + String.length t)).
  by f_equal.
Qed.

(** A name to which a suffix has been appended ends with it. *)
Lemma endswith_append (s t : string) : endswith (s ++ t)%string t = true.
Proof.
  unfold endswith. cbn zeta. rewrite string_length_append.
  replace (String.length s + String.length t - String.length t)%nat
    with (String.length s) by lia.
  rewrite substring_append, String.eqb_refl.
  apply andb_true_intro. split; [|done]. apply Nat.leb_le. lia.
Qed.

Lemma find_first {A : Type} (p : A -> bool) (l : list A) (a : A) :
  find p l = Some a ->
  p a = true
  /\ exists pre post, l = pre ++ a :: post /\ Forall (fun e => p e = false) pre.
Proof.
  induction l as [|b l IH]; cbn; [done|].
  destruct (p b) eqn:Hb.
  - intros [= ->]. split; [done|]. by exists [], l.
  - intros Hf. destruct (IH Hf) as (Ha & pre & post & -> & Hpre).
    split; [done|]. exists (b :: pre), post. split; [done|]. by constructor.
Qed.

Lemma existsb_eqb_In (f : string) (l : list string) :
  existsb (String.eqb f) l = true <-> In f l.
Proof.
  rewrite existsb_exists. split.
  - intros (x & Hx & E). apply String.eqb_eq in E. by subst.
  - intros Hin. exists f. split; [done|apply String.eqb_refl].
Qed.

End ExportNames.

(** X20. The structure format [save_data] settles on.  A format that is
    given and supported is kept, whatever the file name ends with; a
    format that is given and not supported is replaced by the default
    one, without an error.  With no format given, the format is the
    first supported one the file name ends with (the dot is not looked
    at), and the default one when there is none.  In every case the
    result is a supported format or the default one. *)
Theorem format_resolution `{Collaborators} (fname : string)
    (structure_format : option string) :
  exists f,
    SWNT.resolve_format fname structure_format = Some f
    /\ (In f supported_structure_formats \/ f = default_structure_format)
    /\ match structure_format with
       | Some given =>
           (In given supported_structure_formats -> f = given)
           /\ (~ In given supported_structure_formats ->
               f = default_structure_format)
       | None =>
           (endswith_any fname supported_structure_formats = false ->
            f = default_structure_format)
           /\ (endswith_any fname supported_structure_formats = true ->
               endswith fname f = true
               /\ exists pre post,
                    supported_structure_formats = pre ++ f :: post
                    /\ Forall (fun e => endswith fname e = false) pre)
       end.
Proof.
  unfold SWNT.resolve_format.
  destruct structure_format as [given|].
  - rewrite bool_decide_eq_false_2 by done. rewrite andb_false_r.
    destruct (existsb (String.eqb given) supported_structure_formats) eqn:E.
    + cbn [negb orb andb]. rewrite andb_false_r. exists given.
      apply existsb_eqb_In in E. split_and!; try done; by left.
    + cbn [negb orb]. exists default_structure_format.
      split_and!; try done; [by right|].
      intros Hin. apply existsb_eqb_In in Hin. congruence.
  - rewrite bool_decide_eq_true_2 by done. rewrite andb_true_r.
    destruct (endswith_any fname supported_structure_formats) eqn:E.
    + destruct (find_existsb _ _ E) as [f Hf]. exists f.
      destruct (find_first _ _ _ Hf) as (Hend & pre & post & Hl & Hpre).
      split_and!; try done.
      * left. rewrite Hl. apply in_or_app. right. by left.
      * intros _. split; [done|]. by exists pre, post.
    + exists default_structure_format. split_and!; try done. by right.
Qed.

Lemma format_resolution_witness :
  @SWNT.resolve_format sample_collaborators "tube.data" None = Some "data"%string
  /\ @SWNT.resolve_format sample_collaborators "tube.data" (Some "pdb"%string)
     = Some "xyz"%string.
Proof.
  split.
  - destruct (@format_resolution sample_collaborators "tube.data" None)
      as (f & Hf & _ & _ & Hend).
    destruct (Hend eq_refl) as (_ & pre & post & Hl & Hpre).
    rewrite Hf. f_equal.
    destruct pre as [|e1 [|e2 pre]].
    + injection Hl as <- _. by inversion Hpre.
    + injection Hl as _ <- _. reflexivity.
    + destruct pre; discriminate Hl.
  - destruct (@format_resolution sample_collaborators "tube.data"
                (Some "pdb"%string)) as (f & Hf & _ & _ & Hno).
    rewrite Hf, Hno; [reflexivity|].
    intros [E|[E|[]]]; discriminate E.
Defined.

(** X21. The file name [save_data] ends with.  The name given (the
    default one when none is) is kept when it ends with the format
    settled on, and is extended by a dot and the format otherwise, so
    that the name stored and handed to the writer always ends with the
    format; the path is stored only when an output path is given, and
    is the join of that path and the stored name; the write is the
    last call made. *)
Theorem export_file_name `{Collaborators} (g : SWNT.SWNTGenerator)
    (fname outpath structure_format : option string)
    (rotation_angle : option Q) (rot_axis : option string)
    (deg2rad center_CM : bool) :
  let given :=
    match fname with
    | None => default_fname (SWNT.n g) (SWNT.m g) (SWNT.nz g)
                (SWNT._assume_integer_unit_cells g)
    | Some f => f
    end in
  exists g' f,
    SWNT.save_data g fname outpath structure_format rotation_angle rot_axis
      deg2rad center_CM = Ok g'
    /\ SWNT.resolve_format given structure_format = Some f
    /\ let name := if endswith given f then given
                   else (given ++ "." ++ f)%string in
       SWNT._fname g' = Some name
       /\ endswith name f = true
       /\ SWNT._fpath g'
          = match outpath with
            | Some o => Some (path_join o name)
            | None => SWNT._fpath g
            end
       /\ last (SWNT.calls g')
          = Some (Write name outpath (SWNT.structure_atoms g') f).
Proof.
  intros given.
  destruct (resolve_format_some given structure_format) as [f Hf].
  unfold SWNT.save_data, SWNT.base_save_data. fold given. rewrite Hf.
  eexists _, f. split; [reflexivity|]. split; [done|].
  cbn zeta.
  assert (Hname : (if negb (endswith given f)
                   then (given ++ "." ++ f)%string else given)
                  = (if endswith given f then given
                     else (given ++ "." ++ f)%string))
    by by destruct (endswith given f).
  rewrite Hname. clear Hname.
  set (name := if endswith given f then given else (given ++ "." ++ f)%string).
  assert (Hend : endswith name f = true).
  { unfold name. destruct (endswith given f) eqn:E; [done|].
    replace (given ++ "." ++ f)%string with ((given ++ ".") ++ f)%string.
    - apply endswith_append.
    - clear. induction given as [|c s IH]; [done|].
      change (String c ((s ++ ".") ++ f) = String c (s ++ "." ++ f))%string.
      by f_equal. }
  split_and!.
  - by destruct (SWNT._L0 g), (SWNT._fix_Lz g), center_CM, rotation_angle.
  - done.
  - by destruct (SWNT._L0 g), (SWNT._fix_Lz g), center_CM, rotation_angle,
         outpath.
  - rewrite calls_log. by rewrite last_snoc.
Qed.

Lemma export_file_name_witness :
  exists g',
    @SWNT.save_data sample_collaborators fixed_length_tube
      (Some "tube"%string) (Some "out"%string) (Some "data"%string)
      None None true true = Ok g'
    /\ SWNT._fname g' = Some "tube.data"%string
    /\ SWNT._fpath g' = Some "out/tube.data"%string.
Proof.
  destruct (@export_file_name sample_collaborators fixed_length_tube
              (Some "tube"%string) (Some "out"%string) (Some "data"%string)
              None None true true)
    as (g' & f & Hs & Hf & Hn & _ & Hp & _).
  injection Hf as <-.
  exists g'. split; [exact Hs|]. split; [exact Hn|exact Hp].
Defined.
